(** * LocalDuck review pipeline: a shallow embedding and its properties

    The scanner of [localduck] filters a change set, orders it by risk,
    groups near-identical diffs, looks each representative up in an
    embedding cache, batches the rest under a token budget, has the batches
    reviewed, stores the findings and fans them out to the duplicates.

    Conventions of the embedding.
    - A Python [str] is a [string]; one character is one code point, so
      the model covers the code points below 256.
    - A Python [int] is a [Z]; a Python [float] is a [Q], the rational it
      denotes, with exact arithmetic and exact comparisons.
    - A Python [dict] is an association list in insertion order.
    - Collaborators that the repository only calls (the sentence encoder,
      numpy, the JSON codec, the vector index, the review backend) are
      type classes; the examples instantiate them with small executable
      stand-ins. *)

From Stdlib Require Import Ascii QArith Qround DecimalString.
From stdpp Require Import base list strings gmap sorting.

Set Default Proof Using "Type".
Set Warnings "-register-all".
Local Open Scope string_scope.
Local Open Scope list_scope.
Local Open Scope Z_scope.

(** ** Python strings *)

Module pystr.

(** [str.lower] on the first 256 code points: the ASCII capitals and the
    Latin-1 capitals (U+00C0 to U+00DE but U+00D7) move up by 32. *)
Definition lower_char (c : ascii) : ascii :=
  let n := N_of_ascii c in
  if ((65 <=? n) && (n <=? 90) || (192 <=? n) && (n <=? 214)
      || (216 <=? n) && (n <=? 222))%N
  then ascii_of_N (n + 32) else c.

Fixpoint lower (s : string) : string :=
  match s with
  | EmptyString => EmptyString
  | String c r => String (lower_char c) (lower r)
  end.

(** [s.startswith(p)] *)
Fixpoint startswith (s p : string) {struct p} : bool :=
  match p, s with
  | EmptyString, _ => true
  | String a p', String b s' => if Ascii.eqb a b then startswith s' p' else false
  | String _ _, EmptyString => false
  end.

(** [sub in s] *)
Fixpoint contains (sub s : string) : bool :=
  startswith s sub ||
  match s with
  | EmptyString => false
  | String _ r => contains sub r
  end.

(** [s.endswith(x)] *)
Definition endswith (s x : string) : bool :=
  startswith (String.rev s) (String.rev x).

(** [len(s)] *)
Definition len (s : string) : Z := Z.of_nat (String.length s).

(** The double quote, which a literal cannot hold. *)
Definition dquote : ascii := ascii_of_nat 34.
Definition newline : ascii := ascii_of_nat 10.

End pystr.

(** ** [localduck/types.py] *)

Inductive Severity := CRITICAL | WARNING | INFO.

Inductive CheckCategory :=
  | CODE_QUALITY | SECURITY | CODE_SMELL | LICENSE | DOCUMENTATION
  | TEST_COVERAGE | PERFORMANCE | ACCESSIBILITY | LLM_SPECIFIC.

(** The value of a [StrEnum] member. *)
Definition severity_value (s : Severity) : string :=
  match s with
  | CRITICAL => "critical" | WARNING => "warning" | INFO => "info"
  end.

Definition category_value (c : CheckCategory) : string :=
  match c with
  | CODE_QUALITY => "codeQuality" | SECURITY => "security"
  | CODE_SMELL => "codeSmell" | LICENSE => "license"
  | DOCUMENTATION => "documentation" | TEST_COVERAGE => "testCoverage"
  | PERFORMANCE => "performance" | ACCESSIBILITY => "accessibility"
  | LLM_SPECIFIC => "llmSpecific"
  end.

Record FileDiff := {
  path : string;
  diff : string;
  is_new : bool;
  is_deleted : bool
}.

(** The Python values that the JSON codec reads and writes.  A [float] is
    kept as its literal; a [dict] keeps its keys in insertion order. *)
Inductive json :=
  | JNull
  | JBool (b : bool)
  | JInt (n : Z)
  | JFloat (literal : string)
  | JStr (s : string)
  | JList (items : list json)
  | JDict (fields : list (string * json)).

(** [Issue] is a frozen dataclass; its annotations ([file: str],
    [line: int | None], ...) are not enforced at run time, and the cache
    deserialiser stores whatever JSON value it reads.  The four
    free-form fields therefore hold Python values; the two enumerations
    are checked by their constructors. *)
Record Issue := {
  file : json;
  line : json;
  severity : Severity;
  category : CheckCategory;
  message : json;
  suggestion : json
}.

(** [i.file == p] for a [str] [p]: a [str] equals only the same [str]. *)
Definition file_is (p : string) (i : Issue) : bool :=
  match file i with
  | JStr s => String.eqb s p
  | _ => false
  end.

Record ScanResult := {
  issues : list Issue;
  files_scanned : Z;
  files_skipped : Z;
  files_cached : Z;
  files_deduped : Z;
  token_usage : Z;
  cache_hits : Z;
  skipped_files : list string
}.

(** [ScanResult()] *)
Definition ScanResult_default : ScanResult :=
  {| issues := []; files_scanned := 0; files_skipped := 0; files_cached := 0;
     files_deduped := 0; token_usage := 0; cache_hits := 0;
     skipped_files := [] |}.

(** [len(l)] *)
Definition llen {A} (l : list A) : Z := Z.of_nat (length l).

(** ** [localduck/scanner/filter.py] *)

Module filter.

Definition _SKIP_EXTENSIONS : list string :=
  [ ".lock"; ".svg"; ".png"; ".jpg"; ".jpeg"; ".gif"; ".ico"; ".webp"; ".bmp";
    ".woff"; ".woff2"; ".ttf"; ".eot"; ".otf"; ".map"; ".min.js"; ".min.css";
    ".pyc"; ".pyo"; ".so"; ".dylib"; ".dll"; ".exe"; ".jar"; ".war"; ".zip";
    ".tar"; ".gz"; ".br" ].

(** The alternatives of [_SKIP_PATTERNS]. *)
Definition _SKIP_NAMES : list string :=
  [ "package-lock.json"; "yarn.lock"; "pnpm-lock.yaml"; "Pipfile.lock";
    "poetry.lock"; "uv.lock"; "Cargo.lock"; "Gemfile.lock"; "composer.lock";
    ".DS_Store"; "Thumbs.db" ].

(** Whether [(^|/)name$] is found in [p]: [p] is [name] or ends with
    [/name], where [$] also stands before one final newline. *)
Definition matches_name (p name : string) : bool :=
  let at_end (q : string) :=
    String.eqb q name || pystr.endswith q (String "/" name) in
  at_end p || at_end (String.rev
    match String.rev p with
    | String c r => if Ascii.eqb c pystr.newline then r else String.rev p
    | EmptyString => EmptyString
    end).

Definition _should_skip (p : string) : bool :=
  let lower := pystr.lower p in
  existsb (pystr.endswith lower) _SKIP_EXTENSIONS
  || existsb (matches_name p) _SKIP_NAMES.

Definition filter_step (acc : list FileDiff * list string) (fd : FileDiff)
  : list FileDiff * list string :=
  if _should_skip (path fd) then (acc.1, acc.2 ++ [path fd])
  else (acc.1 ++ [fd], acc.2).

(** Returns [(reviewable, skipped)]. *)
Definition filter_diffs (diffs : list FileDiff) : list FileDiff * list string :=
  fold_left filter_step diffs ([], []).

End filter.

(** ** [localduck/scanner/batcher.py] *)

Module batcher.

Definition CHARS_PER_TOKEN : Z := 4.

Definition _HIGH_RISK_SEGMENTS : list string :=
  [ "auth"; "secret"; "crypto"; "password"; "credential"; "token"; "admin";
    "db"; "database"; "migrate"; "env"; "config"; "permission"; "rbac";
    "session"; "oauth"; "jwt"; "key"; "cert"; "ssl"; "tls" ].

(** The loop of [_risk_score] over the segments, from a running score. *)
Definition risk_loop (path_lower : string) (segments : list string) (score : Z) : Z :=
  fold_left (fun score segment =>
               if pystr.contains segment path_lower then score + 10 else score)
            segments score.

Definition _risk_score (fd : FileDiff) : Z :=
  let path_lower := pystr.lower (path fd) in
  let score := risk_loop path_lower _HIGH_RISK_SEGMENTS 0 in
  if is_new fd then score + 5 else score.

(** [len(text) // CHARS_PER_TOKEN] *)
Definition estimate_tokens (text : string) : Z :=
  pystr.len text `div` CHARS_PER_TOKEN.

(** [sorted(xs, key=key, reverse=True)]: a stable sort, largest key first.
    An element is put in front of the first element whose key is not
    larger than its own, so equal keys keep their order. *)
Fixpoint insert_desc {A} (key : A -> Z) (x : A) (l : list A) : list A :=
  match l with
  | [] => [x]
  | y :: r => if key x <? key y then y :: insert_desc key x r else x :: y :: r
  end.

Definition sorted_desc {A} (key : A -> Z) (l : list A) : list A :=
  foldr (insert_desc key) [] l.

Definition prioritize_diffs (diffs : list FileDiff) : list FileDiff :=
  sorted_desc _risk_score diffs.

(** The local variables of [batch_diffs]. *)
Record batch_state := {
  batches : list (list FileDiff);
  skipped : list string;
  current_batch : list FileDiff;
  current_tokens : Z;
  total_tokens : Z
}.

Definition batch_init : batch_state :=
  {| batches := []; skipped := []; current_batch := [];
     current_tokens := 0; total_tokens := 0 |}.

(** [token_budget is not None and total_tokens + diff_tokens > token_budget] *)
Definition over_budget (token_budget : option Z) (total diff_tokens : Z) : bool :=
  match token_budget with
  | Some b => b <? total + diff_tokens
  | None => false
  end.

(** [if current_batch:] *)
Definition nonempty {A} (l : list A) : bool :=
  match l with [] => false | _ => true end.

(** One turn of the [for fd in diffs] loop. *)
Definition batch_step (max_tokens_per_batch : Z) (token_budget : option Z)
    (st : batch_state) (fd : FileDiff) : batch_state :=
  let diff_tokens := estimate_tokens (diff fd) in
  if over_budget token_budget (total_tokens st) diff_tokens then
    {| batches := batches st; skipped := skipped st ++ [path fd];
       current_batch := current_batch st; current_tokens := current_tokens st;
       total_tokens := total_tokens st |}
  else if max_tokens_per_batch <? diff_tokens then
    let st1 :=
      if nonempty (current_batch st) then
        {| batches := batches st ++ [current_batch st]; skipped := skipped st;
           current_batch := []; current_tokens := 0;
           total_tokens := total_tokens st |}
      else st in
    {| batches := batches st1 ++ [[fd]]; skipped := skipped st1;
       current_batch := current_batch st1; current_tokens := current_tokens st1;
       total_tokens := total_tokens st1 + diff_tokens |}
  else
    let st1 :=
      if max_tokens_per_batch <? current_tokens st + diff_tokens then
        {| batches := batches st ++ [current_batch st]; skipped := skipped st;
           current_batch := []; current_tokens := 0;
           total_tokens := total_tokens st |}
      else st in
    {| batches := batches st1; skipped := skipped st1;
       current_batch := current_batch st1 ++ [fd];
       current_tokens := current_tokens st1 + diff_tokens;
       total_tokens := total_tokens st1 + diff_tokens |}.

Definition batch_loop (max_tokens_per_batch : Z) (token_budget : option Z)
    (diffs : list FileDiff) : batch_state :=
  fold_left (batch_step max_tokens_per_batch token_budget) diffs batch_init.

(** Returns [(batches, skipped_due_to_budget)]. *)
Definition batch_diffs (diffs : list FileDiff) (max_tokens_per_batch : Z)
    (token_budget : option Z) : list (list FileDiff) * list string :=
  let st := batch_loop max_tokens_per_batch token_budget diffs in
  let batches :=
    if nonempty (current_batch st) then batches st ++ [current_batch st]
    else batches st in
  (batches, skipped st).

(** The default of [max_tokens_per_batch]. *)
Definition DEFAULT_MAX_TOKENS_PER_BATCH : Z := 12000.

End batcher.

(** ** Control: exceptions and calls that never return *)

Inductive exn := TypeError | ValueError | IndexError | ZeroDivisionError.

(** What a call does: it returns a value, raises, or never returns. *)
Inductive outcome (A : Type) :=
  | Returns (a : A)
  | Raises (e : exn)
  | Blocks.
Arguments Returns {A} a.
Arguments Raises {A} e.
Arguments Blocks {A}.

#[global] Instance outcome_ret : MRet outcome := @Returns.
#[global] Instance outcome_bind : MBind outcome := fun A B f m =>
  match m with
  | Returns a => f a
  | Raises e => Raises e
  | Blocks => Blocks
  end.

(** [for a in l: s = body(s, a)] *)
Fixpoint for_loop {A S} (l : list A) (s : S) (body : S -> A -> outcome S)
  : outcome S :=
  match l with
  | [] => Returns s
  | a :: r => s' ← body s a; for_loop r s' body
  end.

(** [l[i]] *)
Definition index {A} (l : list A) (i : nat) : outcome A :=
  match l !! i with
  | Some x => Returns x
  | None => Raises IndexError
  end.

(** [range(a, b)] *)
Definition range (a b : nat) : list nat := seq a (b - a).

(** ** Python floats and dictionaries *)

(** [x < y] *)
Definition Qltb (x y : Q) : bool := negb (Qle_bool y x).

(** [x / y] on floats *)
Definition float_div (x y : Q) : outcome Q :=
  if Qeq_bool y 0 then Raises ZeroDivisionError else Returns (x / y)%Q.

(** [d[k]] and [d.get(k)]: [None] when the key is absent. *)
Fixpoint dict_get {V} (k : string) (d : list (string * V)) : option V :=
  match d with
  | [] => None
  | (k', v) :: r => if String.eqb k' k then Some v else dict_get k r
  end.

(** [d[k] = v]: a present key keeps its place and takes the new value, a
    new key goes last. *)
Fixpoint dict_set {V} (k : string) (v : V) (d : list (string * V))
  : list (string * V) :=
  match d with
  | [] => [(k, v)]
  | (k', v') :: r =>
      if String.eqb k' k then (k, v) :: r else (k', v') :: dict_set k v r
  end.

(** [d.values()] *)
Definition dict_values {V} (d : list (string * V)) : list V := map snd d.

(** [sum(xs)] *)
Definition zsum (xs : list Z) : Z := fold_left Z.add xs 0.

(** ** Collaborators *)

(** numpy on vectors: [np.dot(a, b)] and [np.linalg.norm(a)] as floats. *)
Class Numpy (vec : Type) := {
  np_dot : vec -> vec -> Q;
  np_linalg_norm : vec -> Q
}.

(** The sentence-transformers model: [model.encode(text)]. *)
Class Encoder (vec : Type) := {
  encode : string -> vec
}.

(** The standard [json] module: [None] stands for [JSONDecodeError]. *)
Class JsonCodec := {
  json_dumps : json -> string;
  json_loads : string -> option json
}.

(** The distance of the vector index (a collection created with
    [hnsw:space = cosine]). *)
Class VectorIndex (vec : Type) := {
  cosine_distance : vec -> vec -> Q
}.

(** The review backend: the result of awaiting [adapter.review(batch)] for
    the batch at position [call]; [None] when the call raised. *)
Class Adapter := {
  review : nat -> list FileDiff -> option (list Issue)
}.

(** ** [localduck/scanner/embedder.py] *)

Module embedder.
Section embedder.
Context {vec : Type} `{!Numpy vec} `{!Encoder vec}.

Definition embed_text (text : string) : vec := encode text.

(** One row per text; the encoder is taken to embed a text the same way
    whatever batch it comes in. *)
Definition embed_texts (texts : list string) : list vec := map encode texts.

Definition cosine_similarity (a b : vec) : outcome Q :=
  let dot := np_dot a b in
  let norm_a := np_linalg_norm a in
  let norm_b := np_linalg_norm b in
  if Qeq_bool norm_a 0 || Qeq_bool norm_b 0 then Returns 0%Q
  else float_div dot (norm_a * norm_b)%Q.

End embedder.
End embedder.

(** ** [localduck/scanner/dedup.py] *)

Module dedup.
Section dedup.
Context {vec : Type} `{!Numpy vec} `{!Encoder vec}.

Record DedupResult := {
  unique : list FileDiff;
  groups : list (string * list string);
  embeddings : list vec
}.

(** [DedupResult()] *)
Definition DedupResult_default : DedupResult :=
  {| unique := []; groups := []; embeddings := [] |}.

(** The variables of the outer loop. *)
Record dedup_state := {
  assigned : gset nat;
  st_unique : list FileDiff;
  unique_embeddings : list vec;
  st_groups : list (string * list string)
}.

(** One turn of [for j in range(i + 1, len(diffs))], on [assigned] and
    [duplicates]. *)
Definition inner_step (diffs : list FileDiff) (all_embeddings : list vec)
    (threshold : Q) (i : nat) (st : gset nat * list string) (j : nat)
  : outcome (gset nat * list string) :=
  if decide (j ∈ st.1) then Returns st
  else
    ei ← index all_embeddings i;
    ej ← index all_embeddings j;
    sim ← embedder.cosine_similarity ei ej;
    if Qle_bool threshold sim then
      fdj ← index diffs j;
      Returns ({[j]} ∪ st.1, st.2 ++ [path fdj])
    else Returns st.

(** One turn of [for i in range(len(diffs))]. *)
Definition outer_step (diffs : list FileDiff) (all_embeddings : list vec)
    (threshold : Q) (st : dedup_state) (i : nat) : outcome dedup_state :=
  if decide (i ∈ assigned st) then Returns st
  else
    fdi ← index diffs i;
    ei ← index all_embeddings i;
    inner ← for_loop (range (i + 1) (length diffs)) ({[i]} ∪ assigned st, [])
                     (inner_step diffs all_embeddings threshold i);
    let groups :=
      if batcher.nonempty inner.2 then dict_set (path fdi) inner.2 (st_groups st)
      else st_groups st in
    Returns {| assigned := inner.1; st_unique := st_unique st ++ [fdi];
               unique_embeddings := unique_embeddings st ++ [ei];
               st_groups := groups |}.

Definition deduplicate (diffs : list FileDiff) (threshold : Q)
  : outcome DedupResult :=
  match diffs with
  | [] => Returns DedupResult_default
  | [fd] =>
      let embeddings := embedder.embed_texts [diff fd] in
      e0 ← index embeddings 0%nat;
      Returns {| unique := diffs; groups := []; embeddings := [e0] |}
  | _ =>
      let texts := map diff diffs in
      let all_embeddings := embedder.embed_texts texts in
      st ← for_loop (range 0 (length diffs))
                    {| assigned := ∅; st_unique := []; unique_embeddings := [];
                       st_groups := [] |}
                    (outer_step diffs all_embeddings threshold);
      Returns {| unique := st_unique st; groups := st_groups st;
                 embeddings := unique_embeddings st |}
  end.

End dedup.
Arguments DedupResult : clear implicits.
Arguments dedup_state : clear implicits.
End dedup.

(** ** [localduck/scanner/cache.py] *)

Module cache.
Section cache.
Context {vec : Type} `{!JsonCodec} `{!VectorIndex vec}.

(** The metadata of a stored record.  [meta_issues] is [None] when the
    record has no ["issues"] key. *)
Record metadata := {
  meta_file_path : string;
  meta_issues : option string
}.

(** One record of the collection.  Its id and timestamp are made from the
    wall clock and are never read back; ids are taken to be fresh. *)
Record entry := {
  entry_embedding : vec;
  entry_metadata : metadata;
  entry_document : string
}.

(** The state of a [ReviewCache]: the records of its collection, oldest
    first. *)
Definition collection := list entry.

(** [collection.query(query_embeddings=[q], n_results=1)]: the stored
    record nearest to [q] with its distance; of several records at the
    least distance the oldest is taken. *)
Fixpoint nearest (c : collection) (q : vec) : option (Q * metadata) :=
  match c with
  | [] => None
  | e :: r =>
      let d := cosine_distance q (entry_embedding e) in
      match nearest r q with
      | Some (d', m') => if Qltb d' d then Some (d', m') else Some (d, entry_metadata e)
      | None => Some (d, entry_metadata e)
      end
  end.

(** [_serialize_issues] *)
Definition issue_to_dict (i : Issue) : json :=
  JDict [ ("file", file i); ("line", line i);
          ("severity", JStr (severity_value (severity i)));
          ("category", JStr (category_value (category i)));
          ("message", message i); ("suggestion", suggestion i) ].

Definition _serialize_issues (issues : list Issue) : string :=
  json_dumps (JList (map issue_to_dict issues)).

(** [Severity(v)] and [CheckCategory(v)]: [None] stands for [ValueError]. *)
Definition Severity_of (v : json) : option Severity :=
  match v with
  | JStr s =>
      if String.eqb s "critical" then Some CRITICAL
      else if String.eqb s "warning" then Some WARNING
      else if String.eqb s "info" then Some INFO
      else None
  | _ => None
  end.

Definition CheckCategory_of (v : json) : option CheckCategory :=
  match v with
  | JStr s =>
      find (fun c => String.eqb s (category_value c))
           [ CODE_QUALITY; SECURITY; CODE_SMELL; LICENSE; DOCUMENTATION;
             TEST_COVERAGE; PERFORMANCE; ACCESSIBILITY; LLM_SPECIFIC ]
  | _ => None
  end.

(** The body of the [try] for one item: [Returns None] when [KeyError] or
    [ValueError] is caught and the item skipped; subscripting anything but
    a [dict] with a [str] raises [TypeError], which is not caught. *)
Definition issue_of_item (item : json) : outcome (option Issue) :=
  match item with
  | JDict d =>
      Returns (
        f ← dict_get "file" d;
        let l := default JNull (dict_get "line" d) in
        s ← dict_get "severity" d ≫= Severity_of;
        c ← dict_get "category" d ≫= CheckCategory_of;
        m ← dict_get "message" d;
        let g := default (JStr "") (dict_get "suggestion" d) in
        Some {| file := f; line := l; severity := s; category := c;
                message := m; suggestion := g |})
  | _ => Raises TypeError
  end.

(** The characters of a [str], each a [str]. *)
Fixpoint chars (s : string) : list json :=
  match s with
  | EmptyString => []
  | String c r => JStr (String c EmptyString) :: chars r
  end.

(** [for item in data]: a [list] yields its items, a [dict] its keys, a
    [str] its characters; nothing else is iterable. *)
Definition iterate (data : json) : outcome (list json) :=
  match data with
  | JList items => Returns items
  | JDict fields => Returns (map (fun kv => JStr kv.1) fields)
  | JStr s => Returns (chars s)
  | _ => Raises TypeError
  end.

Definition _deserialize_issues (raw : string) : outcome (list Issue) :=
  match json_loads raw with
  | None => Returns []
  | Some data =>
      items ← iterate data;
      for_loop items []
        (fun issues item =>
           r ← issue_of_item item;
           Returns (match r with Some i => issues ++ [i] | None => issues end))
  end.

(** [ReviewCache.count] *)
Definition count (c : collection) : Z := llen c.

(** [ReviewCache.query]: [Returns None] for "not found". *)
Definition query (c : collection) (embedding : vec) (threshold : Q)
  : outcome (option (list Issue)) :=
  if count c =? 0 then Returns None
  else
    match nearest c embedding with
    | None => Returns None
    | Some (distance, metadata) =>
        let similarity := (1 - distance)%Q in
        if Qltb similarity threshold then Returns None
        else
          let issues_json := default "[]" (meta_issues metadata) in
          issues ← _deserialize_issues issues_json;
          Returns (Some issues)
    end.

(** [ReviewCache.store]: the collection after the call. *)
Definition store (c : collection) (embedding : vec) (issues : list Issue)
    (file_path : string) : collection :=
  c ++ [ {| entry_embedding := embedding;
            entry_metadata :=
              {| meta_file_path := file_path;
                 meta_issues := Some (_serialize_issues issues) |};
            entry_document := file_path |} ].

(** [ReviewCache.clear]: the count returned and the collection after. *)
Definition clear (c : collection) : Z * collection := (count c, []).

End cache.
Arguments metadata : clear implicits.
Arguments entry : clear implicits.
Arguments collection : clear implicits.
End cache.

(** ** [localduck/config.py] *)

Record LocalDuckConfig := {
  token_budget : Z;
  cache_threshold : Q;
  max_concurrent : Z
}.

(** ** [localduck/scanner/pipeline.py] *)

Module pipeline.
Section pipeline.
Context {vec : Type} `{!Numpy vec} `{!Encoder vec} `{!JsonCodec}
        `{!VectorIndex vec} `{!Adapter}.

(** The variables of the cache check (step 4). *)
Record check_state := {
  needs_review : list FileDiff;
  needs_review_embeddings : list vec;
  cached_issues : list Issue;
  hits : Z;
  cached : Z
}.

Definition check_init : check_state :=
  {| needs_review := []; needs_review_embeddings := []; cached_issues := [];
     hits := 0; cached := 0 |}.

(** One turn of [for fd, embedding in zip(unique, embeddings)]. *)
Definition check_step (c : cache.collection vec) (threshold : Q)
    (st : check_state) (x : FileDiff * vec) : outcome check_state :=
  found ← cache.query c x.2 threshold;
  match found with
  | Some l =>
      Returns {| needs_review := needs_review st;
                 needs_review_embeddings := needs_review_embeddings st;
                 cached_issues := cached_issues st ++ l;
                 hits := hits st + 1; cached := cached st + 1 |}
  | None =>
      Returns {| needs_review := needs_review st ++ [x.1];
                 needs_review_embeddings := needs_review_embeddings st ++ [x.2];
                 cached_issues := cached_issues st;
                 hits := hits st; cached := cached st |}
  end.

(** [asyncio.Semaphore(value)] raises on a negative value. *)
Definition Semaphore (value : Z) : outcome Z :=
  if value <? 0 then Raises ValueError else Returns value.

(** [await asyncio.gather] with [return_exceptions=True]: one result
    per batch, in the order of the batches.  Every task first acquires
    the semaphore, so with no permit and a task to run the await never
    ends. *)
Definition gather (semaphore : Z) (batches : list (list FileDiff))
  : outcome (list (option (list Issue))) :=
  if (semaphore =? 0) && batcher.nonempty batches then Blocks
  else Returns (imap review batches).

(** The loop over [batch_results]: a failed batch adds nothing. *)
Definition merge_results (all_issues : list Issue)
    (batch_results : list (option (list Issue))) : list Issue :=
  fold_left (fun acc r => match r with Some l => acc ++ l | None => acc end)
            batch_results all_issues.

(** Every embedding of the model is an [np.ndarray], the test of
    [isinstance] holds. *)
Definition _store_in_background (c : cache.collection vec)
    (diffs : list FileDiff) (embeddings : list vec) (all_issues : list Issue)
  : cache.collection vec :=
  fold_left (fun c x =>
               let file_issues := List.filter (file_is (path x.1)) all_issues in
               cache.store c x.2 file_issues (path x.1))
            (zip diffs embeddings) c.

(** The issue built in step 8. *)
Definition retarget (dup_path : string) (issue : Issue) : Issue :=
  {| file := JStr dup_path; line := line issue; severity := severity issue;
     category := category issue; message := message issue;
     suggestion := suggestion issue |}.

(** One turn of [for representative_path, duplicate_paths in groups.items()]. *)
Definition propagate_group (all_issues : list Issue)
    (g : string * list string) : list Issue :=
  let rep_issues := List.filter (file_is g.1) all_issues in
  fold_left (fun acc dup_path =>
               fold_left (fun acc issue => acc ++ [retarget dup_path issue])
                         rep_issues acc)
            g.2 all_issues.

Definition propagate (groups : list (string * list string))
    (all_issues : list Issue) : list Issue :=
  fold_left propagate_group groups all_issues.

(** [run_pipeline], from the state of the persistent cache to the result
    and the state the cache is left in. *)
Definition run_pipeline (diffs : list FileDiff) (config : LocalDuckConfig)
    (c : cache.collection vec) : outcome (ScanResult * cache.collection vec) :=
  (* Step 1: filter *)
  let '(reviewable, skipped_paths) := filter.filter_diffs diffs in
  if negb (batcher.nonempty reviewable) then
    Returns ({| issues := []; files_scanned := 0;
                files_skipped := llen skipped_paths; files_cached := 0;
                files_deduped := 0; token_usage := 0; cache_hits := 0;
                skipped_files := skipped_paths |}, c)
  else
    (* Step 2: prioritize *)
    let reviewable := batcher.prioritize_diffs reviewable in
    (* Step 3: deduplicate *)
    dedup_result ← dedup.deduplicate reviewable (cache_threshold config);
    let deduped := zsum (map llen (dict_values (dedup.groups dedup_result))) in
    (* Step 4: cache check *)
    st ← for_loop (zip (dedup.unique dedup_result) (dedup.embeddings dedup_result))
                  check_init (check_step c (cache_threshold config));
    (* Step 5: batch *)
    let budget :=
      if 0 <? token_budget config then Some (token_budget config) else None in
    let '(batches, budget_skipped) :=
      batcher.batch_diffs (needs_review st) batcher.DEFAULT_MAX_TOKENS_PER_BATCH
                          budget in
    (* Step 6: review *)
    semaphore ← Semaphore (max_concurrent config);
    batch_results ← gather semaphore batches;
    let all_issues := merge_results (cached_issues st) batch_results in
    (* Step 7: store *)
    let c' := _store_in_background c (needs_review st)
                                   (needs_review_embeddings st) all_issues in
    (* Step 8: propagate *)
    let all_issues := propagate (dedup.groups dedup_result) all_issues in
    Returns ({| issues := all_issues;
                files_scanned := llen reviewable - llen budget_skipped;
                files_skipped := llen skipped_paths;
                files_cached := cached st;
                files_deduped := deduped;
                token_usage := 0;
                cache_hits := hits st;
                skipped_files := skipped_paths ++ budget_skipped |}, c').

End pipeline.
Arguments check_state : clear implicits.
End pipeline.

(** ** [localduck/types.py]: the blocking decision *)

(** [a == b] on members of a [StrEnum]: the equality of their values. *)
Definition Severity_eqb (a b : Severity) : bool :=
  String.eqb (severity_value a) (severity_value b).

(** [ScanResult.has_critical] *)
Definition has_critical (self : ScanResult) : bool :=
  existsb (fun i => Severity_eqb (severity i) CRITICAL) (issues self).

(** [ScanResult.has_warning] *)
Definition has_warning (self : ScanResult) : bool :=
  existsb (fun i => Severity_eqb (severity i) WARNING) (issues self).

(** [ScanResult.should_block].  The [match] has no case for a value
    other than the four of [BlockOn]; the call then falls off the end
    and returns [None]. *)
Definition should_block (self : ScanResult) (block_on : string) : option bool :=
  if String.eqb block_on "none" then Some false
  else if String.eqb block_on "critical" then Some (has_critical self)
  else if String.eqb block_on "warning" then
    Some (has_critical self || has_warning self)
  else if String.eqb block_on "all" then Some (0 <? llen (issues self))
  else None.

(** ** [localduck/reports/generate.py] *)

Module reports.

(** [_severity_counts] *)
Definition _severity_counts (issues : list Issue) : list (string * Z) :=
  fold_left (fun counts issue =>
               let k := severity_value (severity issue) in
               dict_set k (default 0 (dict_get k counts) + 1) counts)
            issues [("critical", 0); ("warning", 0); ("info", 0)].

End reports.

(** ** Python strings: white space and slices *)

Module pytext.

(** [c.isspace()] on the first 256 code points; it is also what [\s]
    matches in a pattern on [str]. *)
Definition isspace (c : ascii) : bool :=
  let n := N_of_ascii c in
  ((9 <=? n) && (n <=? 13) || (28 <=? n) && (n <=? 32) || (n =? 133)
   || (n =? 160))%N.

(** [s.lstrip()] *)
Fixpoint lstrip (s : string) : string :=
  match s with
  | String c r => if isspace c then lstrip r else s
  | EmptyString => EmptyString
  end.

(** [s.rstrip()] *)
Definition rstrip (s : string) : string := String.rev (lstrip (String.rev s)).

(** [s.strip()] *)
Definition strip (s : string) : string := rstrip (lstrip s).

(** [s[n:]] *)
Fixpoint drop (n : nat) (s : string) : string :=
  match n, s with
  | S n', String _ r => drop n' r
  | _, _ => s
  end.

(** [s[:len(s) - n]] for [n] at most [len(s)] *)
Definition drop_end (n : nat) (s : string) : string :=
  String.rev (drop n (String.rev s)).

End pytext.

(** ** [localduck/agents/base.py] *)

(** [repr] of a Python value that is not a [str]. *)
Class Builtins := {
  repr : json -> string
}.

Module agents.
Section agents.
Context `{!JsonCodec} `{!Builtins}.

(** [str(v)]: a [str] is itself, another value is printed by [repr]. *)
Definition py_str (v : json) : string :=
  match v with
  | JStr s => s
  | _ => repr v
  end.

Definition fence : string := "```".

(** [re.sub] of the pattern for an opening fence by the empty string:
    the pattern is anchored at the start, so it matches at most once;
    it takes the three backquotes, then [json] if that follows, then the
    longest run of white space. *)
Definition sub_opening_fence (s : string) : string :=
  if pystr.startswith s fence then
    let r := pytext.drop 3 s in
    let r := if pystr.startswith r "json" then pytext.drop 4 r else r in
    pytext.lstrip r
  else s.

(** [re.sub] of the pattern for a closing fence by the empty string: the
    pattern ends with [$], which stands at the end of the string and
    before a newline that ends it; its one match is the three
    backquotes found there with the longest run of white space before
    them. *)
Definition sub_closing_fence (s : string) : string :=
  if pystr.endswith s fence then pytext.rstrip (pytext.drop_end 3 s)
  else if pystr.endswith s (fence +:+ String pystr.newline "") then
    pytext.rstrip (pytext.drop_end 4 s) +:+ String pystr.newline ""
  else s.

(** The [Issue] built from an item that is a [dict]; [None] when
    [ValueError] is caught and the item skipped. *)
Definition issue_of_dict (d : list (string * json)) : option Issue :=
  let f := py_str (default (JStr "unknown") (dict_get "file" d)) in
  let l := default JNull (dict_get "line" d) in
  s ← cache.Severity_of (default (JStr "info") (dict_get "severity" d));
  c ← cache.CheckCategory_of
         (default (JStr "codeQuality") (dict_get "category" d));
  let m := py_str (default (JStr "") (dict_get "message" d)) in
  let g := py_str (default (JStr "") (dict_get "suggestion" d)) in
  Some {| file := JStr f; line := l; severity := s; category := c;
          message := JStr m; suggestion := JStr g |}.

Definition parse_review_response (raw : string) : list Issue :=
  let cleaned := pytext.strip raw in
  let cleaned := sub_opening_fence cleaned in
  let cleaned := sub_closing_fence cleaned in
  let cleaned := pytext.strip cleaned in
  if String.eqb cleaned "" || String.eqb cleaned "[]" then []
  else
    match json_loads cleaned with
    | Some (JList data) =>
        fold_left (fun issues item =>
                     match item with
                     | JDict d =>
                         match issue_of_dict d with
                         | Some i => issues ++ [i]
                         | None => issues
                         end
                     | _ => issues
                     end)
                  data []
    | _ => []
    end.

End agents.
End agents.

(** ** Executable stand-ins for the collaborators

    Used by the examples only; the theorems are stated for every
    instance of the classes. *)

Module standin.

(** Vectors are lists of rationals. *)
Definition vector := list Q.

Definition dot (a b : vector) : Q :=
  fold_left (fun acc xy => (acc + xy.1 * xy.2)%Q) (zip a b) 0%Q.

(** The square root, rounded down to nine decimals (exact on squares). *)
Definition sqrt_down (x : Q) : Q :=
  let s := 10 ^ 9 in
  Qred (Z.sqrt (Qnum x * Zpos (Qden x) * s * s) # (Qden x * Z.to_pos s)).

Definition norm (a : vector) : Q := sqrt_down (dot a a).

#[global] Instance numpy : Numpy vector :=
  {| np_dot := dot; np_linalg_norm := norm |}.

(** An encoder that counts the characters of a text by their code
    modulo three. *)
Fixpoint count_mod3 (k : N) (s : string) : Z :=
  match s with
  | EmptyString => 0
  | String c r =>
      (if (N_of_ascii c mod 3 =? k)%N then 1 else 0) + count_mod3 k r
  end.

#[global] Instance encoder : Encoder vector :=
  {| encode := fun text =>
       [inject_Z (count_mod3 0 text); inject_Z (count_mod3 1 text);
        inject_Z (count_mod3 2 text)] |}.

(** Cosine distance: one minus the cosine, a zero vector being at
    distance one from everything. *)
Definition distance (a b : vector) : Q :=
  let na := norm a in
  let nb := norm b in
  if Qeq_bool na 0 || Qeq_bool nb 0 then 1%Q
  else Qred (1 - dot a b / (na * nb))%Q.

#[global] Instance vector_index : VectorIndex vector :=
  {| cosine_distance := distance |}.

(** A backend that reports one finding per file of the batch, and fails
    on a batch that holds a deleted file. *)
Definition finding (fd : FileDiff) : Issue :=
  {| file := JStr (path fd); line := JInt 1; severity := WARNING;
     category := SECURITY; message := JStr "finding"; suggestion := JStr "" |}.

#[global] Instance adapter : Adapter :=
  {| review := fun _ batch =>
       if existsb is_deleted batch then None else Some (map finding batch) |}.

(** *** A JSON printer in the format of [json.dumps] *)

Definition backslash : ascii := ascii_of_nat 92.

Definition hex_digit (n : N) : ascii :=
  if (n <? 10)%N then ascii_of_N (48 + n) else ascii_of_N (87 + n).

Definition escape_char (c : ascii) : string :=
  let n := N_of_ascii c in
  if Ascii.eqb c pystr.dquote then String backslash (String pystr.dquote "")
  else if Ascii.eqb c backslash then String backslash (String backslash "")
  else if (n =? 10)%N then String backslash "n"
  else if (n =? 13)%N then String backslash "r"
  else if (n =? 9)%N then String backslash "t"
  else if (n =? 8)%N then String backslash "b"
  else if (n =? 12)%N then String backslash "f"
  else if (n <? 32)%N || (126 <? n)%N then
    String backslash
      (String "u" (String "0" (String "0"
        (String (hex_digit (n / 16)) (String (hex_digit (n mod 16)) "")))))
  else String c "".

Fixpoint escape (s : string) : string :=
  match s with
  | EmptyString => EmptyString
  | String c r => escape_char c +:+ escape r
  end.

Definition quote (s : string) : string :=
  String pystr.dquote (escape s +:+ String pystr.dquote "").

Fixpoint join (sep : string) (l : list string) : string :=
  match l with
  | [] => ""
  | [x] => x
  | x :: r => x +:+ sep +:+ join sep r
  end.

Fixpoint dumps (v : json) : string :=
  match v with
  | JNull => "null"
  | JBool true => "true"
  | JBool false => "false"
  | JInt n => NilZero.string_of_int (Z.to_int n)
  | JFloat literal => literal
  | JStr s => quote s
  | JList items => "[" +:+ join ", " (map dumps items) +:+ "]"
  | JDict fields =>
      "{" +:+ join ", " (map (fun kv => quote kv.1 +:+ ": " +:+ dumps kv.2) fields)
          +:+ "}"
  end.

(** *** A JSON parser *)

Definition is_ws (c : ascii) : bool :=
  let n := N_of_ascii c in
  ((n =? 32) || (n =? 9) || (n =? 10) || (n =? 13))%N.

Fixpoint skip_ws (s : string) : string :=
  match s with
  | String c r => if is_ws c then skip_ws r else s
  | EmptyString => s
  end.

Definition digit_value (c : ascii) : option Z :=
  let n := Z.of_N (N_of_ascii c) in
  if (48 <=? n) && (n <=? 57) then Some (n - 48) else None.

Definition hex_value (c : ascii) : option N :=
  let n := N_of_ascii c in
  if ((48 <=? n) && (n <=? 57))%N then Some (n - 48)%N
  else if ((97 <=? n) && (n <=? 102))%N then Some (n - 87)%N
  else if ((65 <=? n) && (n <=? 70))%N then Some (n - 55)%N
  else None.

(** The longest run of digits at the head of [s], and what follows. *)
Fixpoint take_digits (s : string) : string * string :=
  match s with
  | String c r =>
      if bool_decide (is_Some (digit_value c))
      then (String c (take_digits r).1, (take_digits r).2)
      else ("", s)
  | EmptyString => ("", "")
  end.

Fixpoint digits_from (acc : Z) (d : string) : Z :=
  match d with
  | EmptyString => acc
  | String c r => digits_from (10 * acc + default 0 (digit_value c)) r
  end.

Definition digits_value (d : string) : Z := digits_from 0 d.

(** A number: an optional minus sign, then a zero or a run of digits
    that does not start with a zero, then an optional fraction and an
    optional exponent; with a fraction or an exponent it is a float. *)
Definition parse_number (s : string) : option (json * string) :=
  let '(neg, s1) :=
    match s with
    | String c r => if Ascii.eqb c "-" then (true, r) else (false, s)
    | EmptyString => (false, s)
    end in
  let '(ds, r1) :=
    match s1 with
    | String c r => if Ascii.eqb c "0" then ("0", r) else take_digits s1
    | EmptyString => ("", s1)
    end in
  if String.eqb ds "" then None
  else
    let '(frac, r2) :=
      match r1 with
      | String c r =>
          if Ascii.eqb c "." && negb (String.eqb (take_digits r).1 "")
          then (String "." (take_digits r).1, (take_digits r).2)
          else ("", r1)
      | EmptyString => ("", r1)
      end in
    let '(expo, r3) :=
      match r2 with
      | String c r =>
          if Ascii.eqb c "e" || Ascii.eqb c "E" then
            let '(sign, r') :=
              match r with
              | String c' r' =>
                  if Ascii.eqb c' "+" || Ascii.eqb c' "-"
                  then (String c' "", r') else ("", r)
              | EmptyString => ("", r)
              end in
            if String.eqb (take_digits r').1 "" then ("", r2)
            else (String c (sign +:+ (take_digits r').1), (take_digits r').2)
          else ("", r2)
      | EmptyString => ("", r2)
      end in
    if String.eqb frac "" && String.eqb expo "" then
      Some (JInt (if neg : bool then - digits_value ds else digits_value ds), r3)
    else Some (JFloat ((if neg : bool then "-" else "") +:+ ds +:+ frac +:+ expo), r3).

Definition unescape (e : ascii) : option ascii :=
  if Ascii.eqb e pystr.dquote then Some pystr.dquote
  else if Ascii.eqb e backslash then Some backslash
  else if Ascii.eqb e "/" then Some "/"%char
  else if Ascii.eqb e "n" then Some (ascii_of_nat 10)
  else if Ascii.eqb e "r" then Some (ascii_of_nat 13)
  else if Ascii.eqb e "t" then Some (ascii_of_nat 9)
  else if Ascii.eqb e "b" then Some (ascii_of_nat 8)
  else if Ascii.eqb e "f" then Some (ascii_of_nat 12)
  else None.

(** The rest of a string after its opening quote.  A code point above 255
    written as an escape is outside the model and is refused. *)
Fixpoint parse_string (s : string) : option (string * string) :=
  match s with
  | EmptyString => None
  | String c r =>
      if Ascii.eqb c pystr.dquote then Some ("", r)
      else if Ascii.eqb c backslash then
        match r with
        | String e r1 =>
            if Ascii.eqb e "u" then
              match r1 with
              | String h1 (String h2 (String h3 (String h4 r2))) =>
                  a ← hex_value h1; b ← hex_value h2;
                  c ← hex_value h3; d ← hex_value h4;
                  if (a =? 0)%N && (b =? 0)%N then
                    tr ← parse_string r2;
                    Some (String (ascii_of_N (16 * c + d)) tr.1, tr.2)
                  else None
              | _ => None
              end
            else
              ch ← unescape e;
              tr ← parse_string r1;
              Some (String ch tr.1, tr.2)
        | EmptyString => None
        end
      else if (N_of_ascii c <? 32)%N then None
      else
        tr ← parse_string r;
        Some (String c tr.1, tr.2)
  end.

(** A literal at the head of [s]. *)
Definition parse_literal (s : string) : option (json * string) :=
  let try (lit : string) (v : json) : option (json * string) :=
    if pystr.startswith s lit
    then Some (v, String.substring (String.length lit)
                                   (String.length s - String.length lit) s)
    else None in
  match try "null" JNull with
  | Some r => Some r
  | None =>
  match try "true" (JBool true) with
  | Some r => Some r
  | None =>
  match try "false" (JBool false) with
  | Some r => Some r
  | None =>
  match try "NaN" (JFloat "NaN") with
  | Some r => Some r
  | None =>
  match try "Infinity" (JFloat "Infinity") with
  | Some r => Some r
  | None =>
  match try "-Infinity" (JFloat "-Infinity") with
  | Some r => Some r
  | None => parse_number s
  end end end end end end.

Fixpoint parse_value (fuel : nat) (s : string) : option (json * string) :=
  match fuel with
  | O => None
  | S f =>
      match skip_ws s with
      | EmptyString => None
      | String c r =>
          if Ascii.eqb c "[" then
            match skip_ws r with
            | String c' r' =>
                if Ascii.eqb c' "]" then Some (JList [], r')
                else vr ← parse_items f r; Some (JList vr.1, vr.2)
            | EmptyString => None
            end
          else if Ascii.eqb c "{" then
            match skip_ws r with
            | String c' r' =>
                if Ascii.eqb c' "}" then Some (JDict [], r')
                else
                  vr ← parse_fields f r;
                  Some (JDict (fold_left (fun d kv => dict_set kv.1 kv.2 d) vr.1 []),
                        vr.2)
            | EmptyString => None
            end
          else if Ascii.eqb c pystr.dquote then
            tr ← parse_string r; Some (JStr tr.1, tr.2)
          else parse_literal (String c r)
      end
  end
with parse_items (fuel : nat) (s : string) : option (list json * string) :=
  match fuel with
  | O => None
  | S f =>
      vr ← parse_value f s;
      match skip_ws vr.2 with
      | String c r =>
          if Ascii.eqb c "," then
            more ← parse_items f r; Some (vr.1 :: more.1, more.2)
          else if Ascii.eqb c "]" then Some ([vr.1], r)
          else None
      | EmptyString => None
      end
  end
with parse_fields (fuel : nat) (s : string)
  : option (list (string * json) * string) :=
  match fuel with
  | O => None
  | S f =>
      match skip_ws s with
      | String q r =>
          if Ascii.eqb q pystr.dquote then
            kr ← parse_string r;
            match skip_ws kr.2 with
            | String c r1 =>
                if Ascii.eqb c ":" then
                  vr ← parse_value f r1;
                  match skip_ws vr.2 with
                  | String c' r2 =>
                      if Ascii.eqb c' "," then
                        more ← parse_fields f r2;
                        Some ((kr.1, vr.1) :: more.1, more.2)
                      else if Ascii.eqb c' "}" then Some ([(kr.1, vr.1)], r2)
                      else None
                  | EmptyString => None
                  end
                else None
            | EmptyString => None
            end
          else None
      | EmptyString => None
      end
  end.

(** The whole text is one value, white space apart. *)
Definition loads (s : string) : option json :=
  vr ← parse_value (2 * String.length s + 2) s;
  if String.eqb (skip_ws vr.2) "" then Some vr.1 else None.

#[global] Instance json_codec : JsonCodec :=
  {| json_dumps := dumps; json_loads := loads |}.

(** *** A printer in the format of [repr] *)

Definition squote : ascii := ascii_of_nat 39.

(** [repr] in the format of Python, for values that hold no quote or
    escape in a string; a float is printed by its literal. *)
Fixpoint py_repr (v : json) : string :=
  match v with
  | JNull => "None"
  | JBool true => "True"
  | JBool false => "False"
  | JInt n => NilZero.string_of_int (Z.to_int n)
  | JFloat literal => literal
  | JStr s => String squote (s +:+ String squote "")
  | JList items => "[" +:+ join ", " (map py_repr items) +:+ "]"
  | JDict fields =>
      "{" +:+ join ", " (map (fun kv => String squote (kv.1 +:+ String squote "")
                                         +:+ ": " +:+ py_repr kv.2) fields)
          +:+ "}"
  end.

#[global] Instance builtins : Builtins := {| repr := py_repr |}.

End standin.

(** * Vocabulary of the properties *)

(** The estimate as the specification words it: the ceiling of a quarter
    of the number of characters. *)
Definition ceil_quarter (text : string) : Z :=
  Qceiling (inject_Z (pystr.len text) / 4).




(** The tokens of the diffs placed in batches. *)
Definition placed_tokens (bs : list (list FileDiff)) : Z :=
  zsum (map (fun fd => batcher.estimate_tokens (diff fd)) (concat bs)).

(** The value of [cosine_similarity]. *)
Definition cosine {vec : Type} `{!Numpy vec} (a b : vec) : Q :=
  if Qeq_bool (np_linalg_norm a) 0 || Qeq_bool (np_linalg_norm b) 0 then 0%Q
  else (np_dot a b / (np_linalg_norm a * np_linalg_norm b))%Q.

(** The path of the diff at an index. *)
Definition path_at (diffs : list FileDiff) (k : nat) : string :=
  from_option path "" (diffs !! k).

(** The invariant of the outer loop of [deduplicate] after [i] turns:
    the assigned indices are indices of the list and include those below
    [i]; the representatives are a subsequence of the first [i] diffs,
    each with its embedding; and, for pairwise distinct paths, the paths
    at the assigned indices are those of the representatives and of the
    groups, and every key of a group is the path of a representative. *)
Definition outer_inv {vec : Type} (diffs : list FileDiff) (i : nat)
    (st : dedup.dedup_state vec) : Prop :=
  (forall x, x ∈ dedup.assigned st -> (x < length diffs)%nat)
  /\ (forall x, (x < i)%nat -> x ∈ dedup.assigned st)
  /\ dedup.st_unique st `sublist_of` take i diffs
  /\ length (dedup.unique_embeddings st) = length (dedup.st_unique st)
  /\ (NoDup (path <$> diffs) ->
      path_at diffs <$> elements (dedup.assigned st)
        ≡ₚ (path <$> dedup.st_unique st)
           ++ concat (dict_values (dedup.st_groups st))
      /\ forall k, k ∈ (dedup.st_groups st).*1 -> k ∈ path <$> dedup.st_unique st).

(** The body of the loop of [_deserialize_issues]. *)
Definition collect (issues : list Issue) (item : json) : outcome (list Issue) :=
  r ← cache.issue_of_item item;
  Returns (match r with Some i => issues ++ [i] | None => issues end).

(** An item that the deserialiser skips: a [dict] that lacks [file] or
    [message], or whose [severity] or [category] is absent or not the
    value of a member. *)
Definition malformed (item : json) : Prop :=
  exists d, item = JDict d
    /\ (dict_get "file" d = None
        \/ dict_get "severity" d ≫= cache.Severity_of = None
        \/ dict_get "category" d ≫= cache.CheckCategory_of = None
        \/ dict_get "message" d = None).

(** A payload with nothing to read: not JSON at all, or a list of items
    that are all skipped. *)
Definition unreadable {codec : JsonCodec} (raw : string) : Prop :=
  json_loads raw = None
  \/ exists items, json_loads raw = Some (JList items) /\ Forall malformed items.

(** The stages of a run, as [run_pipeline] computes them. *)

(** The diffs that pass the filter, in the order of review. *)
Definition reviewable_of (diffs : list FileDiff) : list FileDiff :=
  batcher.prioritize_diffs (filter.filter_diffs diffs).1.

Definition budget_of (config : LocalDuckConfig) : option Z :=
  if 0 <? token_budget config then Some (token_budget config) else None.

(** The batches and the paths dropped for the budget. *)
Definition batched {vec : Type} (config : LocalDuckConfig)
    (st : pipeline.check_state vec) : list (list FileDiff) * list string :=
  batcher.batch_diffs (pipeline.needs_review st)
                      batcher.DEFAULT_MAX_TOKENS_PER_BATCH (budget_of config).

(** The issues before the fan-out: those of the cache, then those of the
    batches that were reviewed. *)
Definition merged {vec : Type} {backend : Adapter} (config : LocalDuckConfig)
    (st : pipeline.check_state vec) : list Issue :=
  pipeline.merge_results (pipeline.cached_issues st)
                         (imap review (batched config st).1).

(** The record that step 7 stores for a representative. *)
Definition stored_entry {vec : Type} {codec : JsonCodec}
    (all_issues : list Issue) (x : FileDiff * vec) : cache.entry vec :=
  {| cache.entry_embedding := x.2;
     cache.entry_metadata :=
       {| cache.meta_file_path := path x.1;
          cache.meta_issues :=
            Some (cache._serialize_issues
                    (List.filter (file_is (path x.1)) all_issues)) |};
     cache.entry_document := path x.1 |}.

(** Every payload of the cache can be read without an error. *)
Definition cache_readable {vec : Type} {codec : JsonCodec}
    (c : cache.collection vec) : Prop :=
  forall x, x ∈ c ->
    exists l, cache._deserialize_issues
                (default "[]" (cache.meta_issues (cache.entry_metadata x)))
              = Returns l.

(** The query for a representative finds nothing. *)
Definition misses {vec : Type} {codec : JsonCodec} {space : VectorIndex vec}
    (c : cache.collection vec) (threshold : Q) (x : FileDiff * vec) : bool :=
  match cache.query c x.2 threshold with
  | Returns (Some _) => false
  | _ => true
  end.

(** The issues that step 8 appends for one group, from the issues
    collected so far: one clone of every issue of the representative's
    path for every duplicate path. *)
Definition clones_of (all_issues : list Issue) (g : string * list string)
  : list Issue :=
  flat_map (fun dup_path =>
              map (pipeline.retarget dup_path)
                  (List.filter (file_is g.1) all_issues))
           g.2.

(** [s] ends with [x]. *)
Definition ends_with (s x : string) : Prop := exists pre, s = pre +:+ x.

(** [q] is [p] without the newline that may end it. *)
Definition chomped (p q : string) : Prop :=
  p = q \/ p = q +:+ String pystr.newline "".

(** The tokens of one batch. *)
Definition batch_tokens (b : list FileDiff) : Z :=
  zsum (map (fun fd => batcher.estimate_tokens (diff fd)) b).

(** What the loop of [batch_diffs] keeps true, [done] being the diffs
    it has seen: the batches and the batch in progress hold diffs of
    [done] in their order, the skipped paths are paths of [done] in their
    order, and together they are all of [done]; no finished batch is
    empty; the batch in progress has [current_tokens] tokens and fits in
    a batch; a finished batch fits or is one oversized diff. *)
Definition batch_inv (m : Z) (done : list FileDiff) (st : batcher.batch_state)
  : Prop :=
  concat (batcher.batches st) ++ batcher.current_batch st `sublist_of` done
  /\ batcher.skipped st `sublist_of` path <$> done
  /\ (path <$> concat (batcher.batches st) ++ batcher.current_batch st)
       ++ batcher.skipped st ≡ₚ path <$> done
  /\ Forall (fun b => b <> []) (batcher.batches st)
  /\ batcher.current_tokens st = batch_tokens (batcher.current_batch st)
  /\ (batcher.current_batch st = [] \/ batch_tokens (batcher.current_batch st) <= m)
  /\ Forall (fun b => batch_tokens b <= m
                      \/ exists fd, b = [fd]
                                    /\ m < batcher.estimate_tokens (diff fd))
            (batcher.batches st).

(** The diff [b] is as similar to the diff [a] as the threshold asks. *)
Definition similar {vec : Type} `{!Numpy vec} `{!Encoder vec} (threshold : Q)
    (a b : FileDiff) : Prop :=
  (threshold <= cosine (encode (diff a)) (encode (diff b)))%Q.

(** What the outer loop of [deduplicate] keeps true about similarity
    after [i] turns: every assigned index is that of a representative or
    of a diff similar to one; every representative stands at an index
    below [i], and every later diff similar to it is assigned; no
    representative is similar to an earlier one; every path of a group is
    that of a diff similar to a representative that has the key of the
    group as its path; and the embeddings are those of the
    representatives. *)
Definition similarity_inv {vec : Type} `{!Numpy vec} `{!Encoder vec}
    (diffs : list FileDiff) (threshold : Q) (i : nat)
    (st : dedup.dedup_state vec) : Prop :=
  (forall b, b ∈ dedup.assigned st ->
     exists fdb rep, diffs !! b = Some fdb /\ rep ∈ dedup.st_unique st
                     /\ (rep = fdb \/ similar threshold rep fdb))
  /\ (forall rep, rep ∈ dedup.st_unique st ->
        exists a, (a < i)%nat /\ diffs !! a = Some rep
          /\ forall b fdb, (a < b)%nat -> diffs !! b = Some fdb ->
                           similar threshold rep fdb ->
                           b ∈ dedup.assigned st)
  /\ (forall p q up uq, (p < q)%nat ->
        dedup.st_unique st !! p = Some up -> dedup.st_unique st !! q = Some uq ->
        ~ similar threshold up uq)
  /\ (forall k ds d, (k, ds) ∈ dedup.st_groups st -> d ∈ ds ->
        exists rep fd, rep ∈ dedup.st_unique st /\ path rep = k
                       /\ fd ∈ diffs /\ path fd = d
                       /\ similar threshold rep fd)
  /\ dedup.unique_embeddings st
     = map (fun fd => encode (diff fd)) (dedup.st_unique st).



(** An item of a payload: the one that [_serialize_issues] writes for
    an issue, or any other item. *)
Definition payload_item (x : Issue + json) : json :=
  match x with inl i => cache.issue_to_dict i | inr item => item end.

(** The issue that an item was written for. *)
Definition written_issue (x : Issue + json) : option Issue :=
  match x with inl i => Some i | inr _ => None end.

(** The number of issues of a severity. *)
Definition count_severity (s : Severity) (issues : list Issue) : Z :=
  llen (List.filter (fun i => Severity_eqb (severity i) s) issues).

(** A result with other issues. *)
Definition with_issues (r : ScanResult) (l : list Issue) : ScanResult :=
  {| issues := l; files_scanned := files_scanned r;
     files_skipped := files_skipped r; files_cached := files_cached r;
     files_deduped := files_deduped r; token_usage := token_usage r;
     cache_hits := cache_hits r; skipped_files := skipped_files r |}.

(** The text that [parse_review_response] hands to the JSON decoder. *)
Definition cleaned_response (raw : string) : string :=
  pytext.strip (agents.sub_closing_fence
                  (agents.sub_opening_fence (pytext.strip raw))).

(** An issue whose free-form text fields are strings, as the
    annotations of [Issue] say. *)
Definition text_fields_are_strings (i : Issue) : Prop :=
  exists f m g, file i = JStr f /\ message i = JStr m /\ suggestion i = JStr g.

(** The loop of [parse_review_response] over the items, from the issues
    collected so far. *)
Definition review_items {builtins : Builtins} (data : list json)
    (acc : list Issue) : list Issue :=
  fold_left (fun issues item =>
               match item with
               | JDict d =>
                   match agents.issue_of_dict d with
                   | Some i => issues ++ [i]
                   | None => issues
                   end
               | _ => issues
               end)
            data acc.

(** A string of white space. *)
Fixpoint all_space (s : string) : bool :=
  match s with
  | String c r => pytext.isspace c && all_space r
  | EmptyString => true
  end.

(** * Properties *)

(** ** Token estimate *)

Section estimate_tokens.
Import batcher.

(** C3, as the code has it: the estimate of a text is the floor of a
    quarter of its number of characters, that is the one integer [t] with
    [4 * t <= len text < 4 * t + 4]; it never exceeds the ceiling. *)
Theorem estimate_tokens_floor (text : string) :
  estimate_tokens text = Qfloor (inject_Z (pystr.len text) / 4)
  /\ 4 * estimate_tokens text <= pystr.len text < 4 * estimate_tokens text + 4
  /\ estimate_tokens text <= ceil_quarter text.
Proof.
  assert (Hfl : estimate_tokens text = Qfloor (inject_Z (pystr.len text) / 4)).
  { unfold estimate_tokens, CHARS_PER_TOKEN, Qfloor, Qdiv, Qmult, Qinv, inject_Z.
    cbn. rewrite Z.mul_1_r. reflexivity. }
  split; [exact Hfl|]. split.
  - unfold estimate_tokens, CHARS_PER_TOKEN.
    pose proof (Z.mul_div_le (pystr.len text) 4 ltac:(lia)).
    pose proof (Z.mul_succ_div_gt (pystr.len text) 4 ltac:(lia)). lia.
  - rewrite Hfl. unfold ceil_quarter, Qceiling.
    pose proof (Qfloor_le (inject_Z (pystr.len text) / 4)) as H1.
    pose proof (Qle_ceiling (inject_Z (pystr.len text) / 4)) as H2.
    unfold Qceiling in H2.
    assert (H3 : (inject_Z (Qfloor (inject_Z (pystr.len text) / 4))
                  <= inject_Z (- Qfloor (- (inject_Z (pystr.len text) / 4))))%Q)
      by (eapply Qle_trans; eassumption).
    rewrite <- Zle_Qle in H3. exact H3.
Qed.

(** C3, as the specification has it, fails: a text of five characters is
    estimated at one token, and the ceiling of 5/4 is two. *)
Lemma estimate_tokens_not_ceiling :
  estimate_tokens "hello" = 1 /\ ceil_quarter "hello" = 2
  /\ ~ (forall text, estimate_tokens text = ceil_quarter text).
Proof.
  split; [reflexivity|]. split; [reflexivity|].
  intros H. specialize (H "hello"). vm_compute in H. discriminate H.
Qed.

End estimate_tokens.

(** ** Substrings *)

Section substrings.

Lemma append_cons (a : ascii) (p r : string) :
  String a p +:+ r = String a (p +:+ r).
Proof. reflexivity. Qed.

Lemma append_nil (r : string) : "" +:+ r = r.
Proof. reflexivity. Qed.

Lemma startswith_spec (s p : string) :
  pystr.startswith s p = true <-> exists r, s = p +:+ r.
Proof.
  revert s. induction p as [|a p IH]; intros s; cbn [pystr.startswith].
  - split; [intros _; exists s; reflexivity | reflexivity].
  - destruct s as [|b s].
    + split; [discriminate | intros [r Hr]; discriminate Hr].
    + destruct (Ascii.eqb_spec a b) as [->|Hne].
      * rewrite IH. split; intros [r Hr]; exists r.
        -- rewrite append_cons. now rewrite Hr.
        -- rewrite append_cons in Hr. now injection Hr.
      * split; [discriminate|]. intros [r Hr].
        rewrite append_cons in Hr. congruence.
Qed.


End substrings.

(** ** Prioritizer *)

Section prioritize.
Import batcher.




Context {A : Type} (key : A -> Z).

Lemma insert_desc_perm (x : A) (l : list A) : insert_desc key x l ≡ₚ x :: l.
Proof.
  induction l as [|y l IH]; cbn; [done|].
  destruct (key x <? key y); [|done].
  rewrite IH. apply Permutation_swap.
Qed.

Lemma sorted_desc_perm (l : list A) : sorted_desc key l ≡ₚ l.
Proof.
  induction l as [|x l IH]; cbn; [done|].
  rewrite insert_desc_perm. now constructor.
Qed.





End prioritize.


(** ** Batcher *)

Section batch_diffs.
Import batcher.

Lemma zsum_from (xs : list Z) (a : Z) : fold_left Z.add xs a = a + zsum xs.
Proof.
  unfold zsum. revert a. induction xs as [|x xs IH]; intros a; cbn [fold_left]; [lia|].
  rewrite IH, (IH (0 + x)). lia.
Qed.

Lemma zsum_app (xs ys : list Z) : zsum (xs ++ ys) = zsum xs + zsum ys.
Proof. unfold zsum. rewrite fold_left_app, zsum_from. reflexivity. Qed.

Lemma placed_tokens_app (bs cs : list (list FileDiff)) :
  placed_tokens (bs ++ cs) = placed_tokens bs + placed_tokens cs.
Proof. unfold placed_tokens. now rewrite concat_app, map_app, zsum_app. Qed.

Lemma placed_tokens_one (b : list FileDiff) (fd : FileDiff) :
  placed_tokens [b ++ [fd]] = placed_tokens [b] + estimate_tokens (diff fd).
Proof.
  unfold placed_tokens. cbn [concat]. rewrite !app_nil_r, map_app, zsum_app.
  reflexivity.
Qed.

Lemma placed_tokens_nil : placed_tokens [[]] = 0.
Proof. reflexivity. Qed.

Lemma placed_tokens_single (fd : FileDiff) :
  placed_tokens [[fd]] = estimate_tokens (diff fd).
Proof. unfold placed_tokens, zsum. cbn. lia. Qed.

(** The running total is the number of tokens placed so far: those of
    the finished batches and those of the batch in progress. *)
Lemma batch_step_total (m : Z) (budget : option Z) (st : batch_state)
    (fd : FileDiff) :
  total_tokens st = placed_tokens (batches st ++ [current_batch st]) ->
  let st' := batch_step m budget st fd in
  total_tokens st' = placed_tokens (batches st' ++ [current_batch st']).
Proof.
  intros H. unfold batch_step.
  destruct (over_budget _ _ _); [exact H|].
  rewrite placed_tokens_app in H.
  destruct (m <? estimate_tokens (diff fd)).
  - destruct (nonempty (current_batch st)) eqn:E;
      cbn [batches current_batch total_tokens].
    + rewrite !placed_tokens_app, placed_tokens_nil, placed_tokens_single. lia.
    + destruct (current_batch st); [|discriminate E].
      rewrite !placed_tokens_app, placed_tokens_nil, placed_tokens_single.
      rewrite placed_tokens_nil in H. lia.
  - destruct (m <? current_tokens st + estimate_tokens (diff fd));
      cbn [batches current_batch total_tokens].
    + rewrite !placed_tokens_app, placed_tokens_one, placed_tokens_nil. lia.
    + rewrite placed_tokens_app, placed_tokens_one. lia.
Qed.

Lemma batch_loop_total (m : Z) (budget : option Z) (diffs : list FileDiff) :
  let st := batch_loop m budget diffs in
  total_tokens st = placed_tokens (batches st ++ [current_batch st]).
Proof.
  unfold batch_loop.
  assert (H0 : total_tokens batch_init
               = placed_tokens (batches batch_init ++ [current_batch batch_init]))
    by reflexivity.
  revert H0. generalize batch_init.
  induction diffs as [|fd diffs IH]; intros st H; cbn [fold_left]; [exact H|].
  apply IH. now apply batch_step_total.
Qed.

End batch_diffs.



(** ** Cosine similarity *)

Section cosine_similarity.
Context {vec : Type} `{!Numpy vec}.

Lemma float_div_returns (x y : Q) :
  ~ (y == 0)%Q -> float_div x y = Returns (x / y)%Q.
Proof.
  intros Hy. unfold float_div.
  destruct (Qeq_bool y 0) eqn:E; [|reflexivity].
  apply Qeq_bool_iff in E. contradiction.
Qed.

Lemma cosine_similarity_returns (a b : vec) :
  embedder.cosine_similarity a b = Returns (cosine a b).
Proof.
  unfold embedder.cosine_similarity, cosine.
  destruct (Qeq_bool (np_linalg_norm a) 0) eqn:Ea; [reflexivity|].
  destruct (Qeq_bool (np_linalg_norm b) 0) eqn:Eb; [reflexivity|].
  cbn [orb]. apply float_div_returns.
  intros H. apply Qmult_integral in H as [H|H]; apply Qeq_bool_iff in H; congruence.
Qed.

End cosine_similarity.



(** ** Loops *)

Section loops.
Context {A St : Type}.

(** A loop whose turns all return, and keep an invariant indexed by the
    number of turns taken, returns in a state that satisfies it. *)
Lemma for_loop_invariant (I : nat -> St -> Prop) (l : list A)
    (body : St -> A -> outcome St) (s0 : St) :
  I 0%nat s0 ->
  (forall k a s, l !! k = Some a -> I k s ->
                 exists s', body s a = Returns s' /\ I (S k) s') ->
  exists s', for_loop l s0 body = Returns s' /\ I (length l) s'.
Proof.
  revert I s0. induction l as [|a l IH]; intros I s0 H0 Hstep.
  - exists s0. split; [reflexivity | exact H0].
  - destruct (Hstep 0%nat a s0 eq_refl H0) as (s1 & Hb & H1).
    destruct (IH (fun k => I (S k)) s1 H1) as (s' & Hl & HI).
    { intros k x s Hk Hs. exact (Hstep (S k) x s Hk Hs). }
    exists s'. split; [|exact HI].
    cbn [for_loop]. rewrite Hb. exact Hl.
Qed.

Lemma index_lookup {B} (l : list B) (i : nat) (x : B) :
  l !! i = Some x -> index l i = Returns x.
Proof. unfold index. now intros ->. Qed.

End loops.

(** ** Deduplicator *)

Section deduplicate.
Context {vec : Type} `{!Numpy vec} `{!Encoder vec}.
Context (diffs : list FileDiff) (threshold : Q).

Local Abbreviation all_embeddings := (embedder.embed_texts (map diff diffs)).

Lemma embedding_lookup (i : nat) (fd : FileDiff) :
  diffs !! i = Some fd -> all_embeddings !! i = Some (encode (diff fd)).
Proof.
  intros H. unfold embedder.embed_texts.
  change (map encode (map diff diffs)) with (encode <$> (diff <$> diffs)).
  now rewrite !list_lookup_fmap, H.
Qed.

(** What a turn of the inner loop does at an index of the list. *)
Lemma inner_step_spec (i j : nat) (fdi fdj : FileDiff)
    (st : gset nat * list string) :
  diffs !! i = Some fdi -> diffs !! j = Some fdj ->
  dedup.inner_step diffs all_embeddings threshold i st j
  = Returns (if decide (j ∈ st.1) then st
             else if Qle_bool threshold
                       (cosine (encode (diff fdi)) (encode (diff fdj)))
                  then ({[j]} ∪ st.1, st.2 ++ [path fdj])
                  else st).
Proof.
  intros Hi Hj. unfold dedup.inner_step.
  destruct (decide (j ∈ st.1)); [reflexivity|].
  rewrite (index_lookup _ _ _ (embedding_lookup _ _ Hi)).
  rewrite (index_lookup _ _ _ (embedding_lookup _ _ Hj)).
  cbn [mbind outcome_bind]. rewrite cosine_similarity_returns.
  cbn [mbind outcome_bind].
  destruct (Qle_bool _ _); [|reflexivity].
  now rewrite (index_lookup _ _ _ Hj).
Qed.

Lemma range_lookup (a b k j : nat) :
  range a b !! k = Some j -> j = (a + k)%nat /\ (j < b)%nat.
Proof. unfold range. rewrite lookup_seq. lia. Qed.

Lemma path_at_lookup (j : nat) (fd : FileDiff) :
  diffs !! j = Some fd -> path_at diffs j = path fd.
Proof. unfold path_at. now intros ->. Qed.

(** The inner loop returns; it only adds indices of the list, and the
    paths it collects are those of the indices it adds. *)
Lemma inner_loop_spec (i : nat) (fdi : FileDiff) (A0 : gset nat) :
  diffs !! i = Some fdi ->
  (forall x, x ∈ A0 -> (x < length diffs)%nat) ->
  exists A dups,
    for_loop (range (i + 1) (length diffs)) (A0, [])
             (dedup.inner_step diffs all_embeddings threshold i)
    = Returns (A, dups)
    /\ (forall x, x ∈ A -> (x < length diffs)%nat)
    /\ A0 ⊆ A
    /\ path_at diffs <$> elements A ≡ₚ (path_at diffs <$> elements A0) ++ dups.
Proof.
  intros Hi HA0.
  destruct (for_loop_invariant
    (fun _ (st : gset nat * list string) =>
       (forall x, x ∈ st.1 -> (x < length diffs)%nat)
       /\ A0 ⊆ st.1
       /\ path_at diffs <$> elements st.1 ≡ₚ (path_at diffs <$> elements A0) ++ st.2)
    (range (i + 1) (length diffs))
    (dedup.inner_step diffs all_embeddings threshold i) (A0, []))
    as ([A dups] & Hret & HI).
  - cbn. split; [exact HA0|]. split; [done|]. now rewrite app_nil_r.
  - intros k j [A dups] Hk (Hlt & Hsub & Hperm). cbn in *.
    apply range_lookup in Hk as [-> Hj].
    destruct (lookup_lt_is_Some_2 diffs _ Hj) as [fdj Hfdj].
    rewrite (inner_step_spec _ _ _ _ _ Hi Hfdj). cbn [fst snd].
    eexists. split; [reflexivity|].
    destruct (decide (_ ∈ A)) as [Hin|Hnin]; [done|].
    destruct (Qle_bool _ _); [|done]. cbn [fst snd].
    split; [|split].
    + intros x Hx. apply elem_of_union in Hx as [Hx|Hx]; [|now apply Hlt].
      apply elem_of_singleton in Hx. now subst.
    + set_solver.
    + rewrite (elements_union_singleton _ _ Hnin), fmap_cons, Hperm.
      rewrite (path_at_lookup _ _ Hfdj), (app_assoc _ dups).
      apply Permutation_cons_append.
  - exists A, dups. exact (conj Hret HI).
Qed.

(** When nothing after [i] is as similar to [i] as the threshold asks, the
    inner loop changes nothing. *)
Lemma inner_loop_none (i : nat) (fdi : FileDiff) (A0 : gset nat) :
  diffs !! i = Some fdi ->
  (forall j fdj, (i < j)%nat -> diffs !! j = Some fdj ->
     Qle_bool threshold (cosine (encode (diff fdi)) (encode (diff fdj))) = false) ->
  for_loop (range (i + 1) (length diffs)) (A0, [])
           (dedup.inner_step diffs all_embeddings threshold i)
  = Returns (A0, []).
Proof.
  intros Hi Hsim.
  destruct (for_loop_invariant
    (fun _ (st : gset nat * list string) => st = (A0, []))
    (range (i + 1) (length diffs))
    (dedup.inner_step diffs all_embeddings threshold i) (A0, []))
    as (st & Hret & ->); [reflexivity| |exact Hret].
  intros k j st Hk ->.
  apply range_lookup in Hk as [-> Hj].
  destruct (lookup_lt_is_Some_2 diffs _ Hj) as [fdj Hfdj].
  rewrite (inner_step_spec _ _ _ _ _ Hi Hfdj). cbn [fst snd].
  eexists. split; [reflexivity|].
  destruct (decide _); [reflexivity|].
  rewrite (Hsim (i + 1 + k)%nat fdj); [reflexivity | lia | exact Hfdj].
Qed.

Lemma outer_step_unfold (i : nat) (fdi : FileDiff) (st : dedup.dedup_state vec) :
  diffs !! i = Some fdi -> i ∉ dedup.assigned st ->
  dedup.outer_step diffs all_embeddings threshold st i
  = (inner ← for_loop (range (i + 1) (length diffs))
                      ({[i]} ∪ dedup.assigned st, [])
                      (dedup.inner_step diffs all_embeddings threshold i);
     Returns {| dedup.assigned := inner.1;
                dedup.st_unique := dedup.st_unique st ++ [fdi];
                dedup.unique_embeddings :=
                  dedup.unique_embeddings st ++ [encode (diff fdi)];
                dedup.st_groups :=
                  if batcher.nonempty inner.2
                  then dict_set (path fdi) inner.2 (dedup.st_groups st)
                  else dedup.st_groups st |}).
Proof.
  intros Hi Hnin. unfold dedup.outer_step.
  rewrite decide_False by exact Hnin.
  rewrite (index_lookup _ _ _ Hi), (index_lookup _ _ _ (embedding_lookup _ _ Hi)).
  reflexivity.
Qed.

Lemma dict_set_fresh {V} (k : string) (v : V) (d : list (string * V)) :
  k ∉ d.*1 -> dict_set k v d = d ++ [(k, v)].
Proof.
  induction d as [|[k' v'] d IH]; intros Hk; cbn; [reflexivity|].
  cbn in Hk. apply not_elem_of_cons in Hk as [Hne Hk].
  destruct (String.eqb_spec k' k) as [->|_]; [done|].
  now rewrite IH.
Qed.

Lemma dict_values_snoc {V} (d : list (string * V)) (k : string) (v : V) :
  dict_values (d ++ [(k, v)]) = dict_values d ++ [v].
Proof. unfold dict_values. now rewrite map_app. Qed.

Lemma zsum_llen_concat {B} (ls : list (list B)) :
  zsum (map llen ls) = llen (concat ls).
Proof.
  induction ls as [|l ls IH]; [reflexivity|].
  cbn [map concat]. unfold zsum in *. cbn [fold_left].
  rewrite zsum_from. unfold zsum. rewrite IH.
  unfold llen. rewrite length_app. lia.
Qed.

Lemma elements_below (X : gset nat) (n : nat) :
  (forall x, x ∈ X -> (x < n)%nat) -> (forall x, (x < n)%nat -> x ∈ X) ->
  elements X ≡ₚ seq 0 n.
Proof.
  intros H1 H2. apply NoDup_Permutation.
  - apply NoDup_elements.
  - apply NoDup_seq.
  - intros x. rewrite elem_of_elements, elem_of_seq. split.
    + intros Hx. specialize (H1 x Hx). lia.
    + intros Hx. apply H2. lia.
Qed.

Lemma path_at_seq : path_at diffs <$> seq 0 (length diffs) = path <$> diffs.
Proof.
  apply list_eq. intros k. rewrite !list_lookup_fmap.
  destruct (diffs !! k) as [fd|] eqn:E.
  - rewrite lookup_seq_lt by (eapply lookup_lt_Some; exact E).
    cbn. now rewrite (path_at_lookup _ _ E).
  - rewrite lookup_seq_ge; [reflexivity|]. now apply lookup_ge_None.
Qed.

Lemma path_not_before (i : nat) (fdi : FileDiff) :
  NoDup (path <$> diffs) -> diffs !! i = Some fdi ->
  path fdi ∉ path <$> take i diffs.
Proof.
  intros Hnd Hi Hin.
  rewrite <- (take_drop_middle _ _ _ Hi), fmap_app, fmap_cons in Hnd.
  apply NoDup_app in Hnd as (_ & Hd & _).
  apply (Hd _ Hin). left.
Qed.

Lemma outer_step_inv (i k : nat) (st : dedup.dedup_state vec) :
  range 0 (length diffs) !! k = Some i -> outer_inv diffs k st ->
  exists st', dedup.outer_step diffs all_embeddings threshold st i = Returns st'
              /\ outer_inv diffs (S k) st'.
Proof.
  intros Hk (Hlt & Hall & Hsub & Hlen & Hnd).
  apply range_lookup in Hk as [-> Hi]. cbn [Nat.add] in *.
  destruct (lookup_lt_is_Some_2 diffs _ Hi) as [fdi Hfdi].
  assert (Htake : take (S k) diffs = take k diffs ++ [fdi]) by now apply take_S_r.
  destruct (decide (k ∈ dedup.assigned st)) as [Hin|Hnin].
  - exists st. split; [unfold dedup.outer_step; now rewrite decide_True|].
    split; [exact Hlt|]. split.
    { intros x Hx. destruct (decide (x = k)) as [->|]; [exact Hin|].
      apply Hall. lia. }
    split; [rewrite Htake; now apply sublist_inserts_r|].
    split; [exact Hlen | exact Hnd].
  - destruct (inner_loop_spec k fdi ({[k]} ∪ dedup.assigned st) Hfdi)
      as (A & dups & Hret & HltA & HsubA & Hperm).
    { intros x Hx. apply elem_of_union in Hx as [Hx|Hx]; [|now apply Hlt].
      apply elem_of_singleton in Hx. now subst. }
    rewrite (outer_step_unfold _ _ _ Hfdi Hnin), Hret.
    eexists. split; [reflexivity|]. cbn [fst snd].
    split; [exact HltA|]. split.
    { intros x Hx. apply HsubA. apply elem_of_union.
      destruct (decide (x = k)) as [->|].
      - left. now apply elem_of_singleton.
      - right. apply Hall. lia. }
    split; [cbn; rewrite Htake; apply sublist_app; [exact Hsub | done]|].
    split; [cbn; rewrite !length_app, Hlen; reflexivity|].
    intros Hnodup. destruct (Hnd Hnodup) as [Hp Hkeys].
    cbn [dedup.assigned dedup.st_unique dedup.st_groups fst snd].
    assert (Hfresh : path fdi ∉ (dedup.st_groups st).*1).
    { intros Hin. apply Hkeys in Hin.
      apply (path_not_before _ _ Hnodup Hfdi).
      eapply elem_of_submseteq; [exact Hin|].
      apply sublist_submseteq. now apply fmap_sublist. }
    assert (Hbase : path_at diffs <$> elements A
                    ≡ₚ ((path <$> dedup.st_unique st) ++ [path fdi])
                       ++ concat (dict_values (dedup.st_groups st)) ++ dups).
    { rewrite Hperm, (elements_union_singleton _ _ Hnin), fmap_cons, Hp.
      rewrite (path_at_lookup _ _ Hfdi).
      cbn [app]. rewrite <- !app_assoc. cbn [app].
      apply Permutation_middle. }
    rewrite fmap_app. cbn [fmap list_fmap].
    destruct dups as [|d dups]; cbn [batcher.nonempty].
    + rewrite app_nil_r in Hbase. split; [exact Hbase|].
      intros x Hx. apply elem_of_app. left. now apply Hkeys.
    + rewrite (dict_set_fresh _ _ _ Hfresh), dict_values_snoc, concat_app.
      cbn [concat]. rewrite app_nil_r. split; [exact Hbase|].
      intros x Hx. rewrite fmap_app in Hx.
      apply elem_of_app in Hx as [Hx|Hx].
      * apply elem_of_app. left. now apply Hkeys.
      * apply elem_of_app. right. exact Hx.
Qed.

(** The outer loop returns, in a state that accounts for every diff. *)
Lemma outer_loop_spec :
  exists st,
    for_loop (range 0 (length diffs))
             {| dedup.assigned := ∅; dedup.st_unique := [];
                dedup.unique_embeddings := []; dedup.st_groups := [] |}
             (dedup.outer_step diffs all_embeddings threshold)
    = Returns st
    /\ dedup.st_unique st `sublist_of` diffs
    /\ length (dedup.unique_embeddings st) = length (dedup.st_unique st)
    /\ (NoDup (path <$> diffs) ->
        (path <$> dedup.st_unique st) ++ concat (dict_values (dedup.st_groups st))
        ≡ₚ path <$> diffs
        /\ forall k, k ∈ (dedup.st_groups st).*1 -> k ∈ path <$> dedup.st_unique st).
Proof.
  destruct (for_loop_invariant (outer_inv diffs) (range 0 (length diffs))
              (dedup.outer_step diffs all_embeddings threshold)
              {| dedup.assigned := ∅; dedup.st_unique := [];
                 dedup.unique_embeddings := []; dedup.st_groups := [] |})
    as (st & Hret & Hlt & Hall & Hsub & Hlen & Hnd).
  - split; [set_solver|]. split; [intros x Hx; lia|].
    split; [cbn; rewrite take_0; constructor|]. split; [reflexivity|].
    intros _. cbn. rewrite elements_empty. split; [reflexivity | set_solver].
  - intros k i st Hk Hinv. exact (outer_step_inv i k st Hk Hinv).
  - exists st. split; [exact Hret|].
    unfold range in *. rewrite length_seq, Nat.sub_0_r in *.
    split; [now rewrite firstn_all in Hsub|]. split; [exact Hlen|].
    intros Hnodup. destruct (Hnd Hnodup) as [Hp Hkeys]. split; [|exact Hkeys].
    rewrite <- Hp, (elements_below _ _ Hlt Hall), path_at_seq. reflexivity.
Qed.

(** When no diff is as similar to an earlier one as the threshold asks,
    the outer loop keeps every diff and records no group. *)
Lemma outer_loop_all_unique :
  (forall i j fdi fdj, (i < j)%nat ->
     diffs !! i = Some fdi -> diffs !! j = Some fdj ->
     Qle_bool threshold (cosine (encode (diff fdi)) (encode (diff fdj))) = false) ->
  exists st,
    for_loop (range 0 (length diffs))
             {| dedup.assigned := ∅; dedup.st_unique := [];
                dedup.unique_embeddings := []; dedup.st_groups := [] |}
             (dedup.outer_step diffs all_embeddings threshold)
    = Returns st
    /\ dedup.st_unique st = diffs /\ dedup.st_groups st = [].
Proof.
  intros Hsim.
  destruct (for_loop_invariant
    (fun i (st : dedup.dedup_state vec) =>
       dedup.st_unique st = take i diffs /\ dedup.st_groups st = []
       /\ forall x, x ∈ dedup.assigned st -> (x < i)%nat)
    (range 0 (length diffs))
    (dedup.outer_step diffs all_embeddings threshold)
    {| dedup.assigned := ∅; dedup.st_unique := [];
       dedup.unique_embeddings := []; dedup.st_groups := [] |})
    as (st & Hret & Hu & Hg & _).
  - cbn. rewrite take_0. split; [reflexivity|]. split; [reflexivity | set_solver].
  - intros k i st Hk (Hu & Hg & Hlt).
    apply range_lookup in Hk as [-> Hi]. cbn [Nat.add] in *.
    destruct (lookup_lt_is_Some_2 diffs _ Hi) as [fdi Hfdi].
    assert (Hnin : k ∉ dedup.assigned st).
    { intros Hin. specialize (Hlt _ Hin). lia. }
    rewrite (outer_step_unfold _ _ _ Hfdi Hnin).
    rewrite (inner_loop_none k fdi _ Hfdi).
    2:{ intros j fdj Hj Hfdj. exact (Hsim k j fdi fdj Hj Hfdi Hfdj). }
    eexists. split; [reflexivity|]. cbn.
    split; [rewrite Hu; symmetry; now apply take_S_r|].
    split; [exact Hg|].
    intros x Hx. apply elem_of_union in Hx as [Hx|Hx].
    + apply elem_of_singleton in Hx. lia.
    + specialize (Hlt _ Hx). lia.
  - exists st. split; [exact Hret|].
    unfold range in Hu. rewrite length_seq, Nat.sub_0_r, firstn_all in Hu.
    exact (conj Hu Hg).
Qed.

End deduplicate.

(** [deduplicate] returns; the representatives are a subsequence of the
    input, each with its embedding; for pairwise distinct paths the
    representatives and the grouped paths are the paths of the input, and
    every key of [groups] is the path of a representative. *)
Lemma deduplicate_returns {vec : Type} `{!Numpy vec} `{!Encoder vec}
    (diffs : list FileDiff) (threshold : Q) :
  exists r,
    dedup.deduplicate diffs threshold = Returns r
    /\ dedup.unique r `sublist_of` diffs
    /\ length (dedup.embeddings r) = length (dedup.unique r)
    /\ (NoDup (path <$> diffs) ->
        (path <$> dedup.unique r) ++ concat (dict_values (dedup.groups r))
        ≡ₚ path <$> diffs
        /\ forall k, k ∈ (dedup.groups r).*1 -> k ∈ path <$> dedup.unique r).
Proof.
  destruct diffs as [|fd1 [|fd2 rest]] eqn:Ed.
  - eexists. split; [reflexivity|]. cbn.
    split; [constructor|]. split; [reflexivity|].
    intros _. split; [reflexivity | set_solver].
  - eexists. split; [reflexivity|]. cbn.
    split; [reflexivity|]. split; [reflexivity|].
    intros _. split; [reflexivity | set_solver].
  - rewrite <- Ed.
    destruct (outer_loop_spec diffs threshold) as (st & Hret & Hsub & Hlen & Hperm).
    exists {| dedup.unique := dedup.st_unique st; dedup.groups := dedup.st_groups st;
              dedup.embeddings := dedup.unique_embeddings st |}.
    split; [|exact (conj Hsub (conj Hlen Hperm))].
    rewrite Ed. unfold dedup.deduplicate. rewrite <- Ed. now rewrite Hret.
Qed.

(** When no diff is as similar to an earlier one as the threshold asks,
    every diff is a representative and there is no group. *)
Lemma deduplicate_all_unique {vec : Type} `{!Numpy vec} `{!Encoder vec}
    (diffs : list FileDiff) (threshold : Q) (r : dedup.DedupResult vec) :
  (forall i j fdi fdj, (i < j)%nat ->
     diffs !! i = Some fdi -> diffs !! j = Some fdj ->
     Qle_bool threshold (cosine (encode (diff fdi)) (encode (diff fdj))) = false) ->
  dedup.deduplicate diffs threshold = Returns r ->
  dedup.unique r = diffs /\ dedup.groups r = [].
Proof.
  intros Hsim Hret.
  destruct diffs as [|fd1 [|fd2 rest]] eqn:Ed.
  - injection Hret as <-. split; reflexivity.
  - injection Hret as <-. split; reflexivity.
  - rewrite <- Ed in *.
    destruct (outer_loop_all_unique diffs threshold Hsim) as (st & Hloop & Hu & Hg).
    rewrite Ed in Hret. unfold dedup.deduplicate in Hret. rewrite <- Ed in Hret.
    rewrite Hloop in Hret. injection Hret as <-. exact (conj Hu Hg).
Qed.

(** C5, as the code has it.  [deduplicate] returns for every input; the
    representatives are a subsequence of the input, each with its
    embedding.  When the paths of the input are pairwise distinct, the
    number of representatives and the sizes of the groups add up to the
    size of the input, and the paths of the representatives together with
    the grouped paths are the paths of the input, each once.  When the
    threshold is one and the cosine similarity of any two embeddings is
    below one, every diff is its own representative and no group is
    recorded. *)
Theorem deduplicate_accounts_for_every_diff {vec : Type} `{!Numpy vec}
    `{!Encoder vec} (diffs : list FileDiff) (threshold : Q) :
  exists r,
    dedup.deduplicate diffs threshold = Returns r
    /\ dedup.unique r `sublist_of` diffs
    /\ length (dedup.embeddings r) = length (dedup.unique r)
    /\ (NoDup (path <$> diffs) ->
        llen (dedup.unique r) + zsum (map llen (dict_values (dedup.groups r)))
        = llen diffs
        /\ (path <$> dedup.unique r) ++ concat (dict_values (dedup.groups r))
           ≡ₚ path <$> diffs)
    /\ ((threshold == 1)%Q ->
        (forall i j fdi fdj, (i < j)%nat ->
           diffs !! i = Some fdi -> diffs !! j = Some fdj ->
           (cosine (encode (diff fdi)) (encode (diff fdj)) < 1)%Q) ->
        dedup.unique r = diffs /\ dedup.groups r = []).
Proof.
  destruct (deduplicate_returns diffs threshold) as (r & Hret & Hsub & Hlen & Hperm).
  exists r. split; [exact Hret|]. split; [exact Hsub|]. split; [exact Hlen|].
  split.
  - intros Hnd. destruct (Hperm Hnd) as [Hp _]. split; [|exact Hp].
    apply Permutation_length in Hp.
    rewrite length_app, !length_fmap in Hp.
    rewrite zsum_llen_concat. unfold llen. lia.
  - intros Ht Hsim. apply (deduplicate_all_unique diffs threshold r); [|exact Hret].
    intros i j fdi fdj Hij Hi Hj.
    destruct (Qle_bool _ _) eqn:E; [|reflexivity].
    apply Qle_bool_iff in E. rewrite Ht in E.
    exfalso. exact (Qlt_not_le _ _ (Hsim i j fdi fdj Hij Hi Hj) E).
Qed.

(** C5 on three files with distinct paths and texts whose embeddings are
    pairwise orthogonal, at threshold one. *)
Lemma deduplicate_accounts_for_every_diff_witness :
  let diffs :=
    [ {| path := "a.py"; diff := "aaa"; is_new := false; is_deleted := false |};
      {| path := "b.py"; diff := "bbb"; is_new := false; is_deleted := false |};
      {| path := "c.py"; diff := "ccc"; is_new := false; is_deleted := false |} ] in
  exists r,
    dedup.deduplicate diffs 1 = Returns r
    /\ llen (dedup.unique r) + zsum (map llen (dict_values (dedup.groups r))) = 3
    /\ (path <$> dedup.unique r) ++ concat (dict_values (dedup.groups r))
       ≡ₚ ["a.py"; "b.py"; "c.py"]
    /\ dedup.unique r = diffs /\ dedup.groups r = [].
Proof.
  intros diffs.
  destruct (deduplicate_accounts_for_every_diff (vec := standin.vector) diffs 1)
    as (r & Hret & _ & _ & Hnd & Hall).
  exists r. split; [exact Hret|].
  assert (Hpaths : NoDup (path <$> diffs)).
  { apply (bool_decide_unpack _). vm_compute. exact I. }
  destruct (Hnd Hpaths) as [Hc Hp]. split; [exact Hc|]. split; [exact Hp|].
  apply Hall; [reflexivity|].
  intros i j fdi fdj Hij Hi Hj.
  destruct i as [|[|[|i]]]; destruct j as [|[|[|j]]];
    try lia; try discriminate Hi; try discriminate Hj;
    injection Hi as <-; injection Hj as <-; reflexivity.
Defined.

(** C5, as the specification has it, fails on an input in which a path
    occurs twice: the second representative [a.py] overwrites the group
    of the first, so two representatives and one grouped path account for
    three of the four diffs. *)
Lemma deduplicate_drops_group_of_repeated_path :
  let diffs :=
    [ {| path := "a.py"; diff := "aaa"; is_new := false; is_deleted := false |};
      {| path := "b.py"; diff := "aaa"; is_new := false; is_deleted := false |};
      {| path := "a.py"; diff := "bbb"; is_new := false; is_deleted := false |};
      {| path := "c.py"; diff := "bbb"; is_new := false; is_deleted := false |} ] in
  exists r,
    dedup.deduplicate (vec := standin.vector) diffs (95 # 100) = Returns r
    /\ dedup.groups r = [("a.py", ["c.py"])]
    /\ llen (dedup.unique r) + zsum (map llen (dict_values (dedup.groups r))) = 3
    /\ llen diffs = 4
    /\ ~ (path <$> dedup.unique r) ++ concat (dict_values (dedup.groups r))
           ≡ₚ path <$> diffs.
Proof.
  eexists. split; [vm_compute; reflexivity|].
  split; [reflexivity|]. split; [reflexivity|]. split; [reflexivity|].
  intros Hp. apply Permutation_length in Hp. discriminate Hp.
Qed.

(** ** Review cache *)

Section review_cache.
Context {vec : Type} {codec : JsonCodec} {space : VectorIndex vec}.

Lemma Severity_of_value (s : Severity) :
  cache.Severity_of (JStr (severity_value s)) = Some s.
Proof. now destruct s. Qed.

Lemma CheckCategory_of_value (c : CheckCategory) :
  cache.CheckCategory_of (JStr (category_value c)) = Some c.
Proof. now destruct c. Qed.

Lemma issue_of_item_to_dict (i : Issue) :
  cache.issue_of_item (cache.issue_to_dict i) = Returns (Some i).
Proof.
  destruct i as [f l s c m g]. unfold cache.issue_to_dict, cache.issue_of_item.
  cbn [file line severity category message suggestion].
  cbn [dict_get String.eqb Ascii.eqb Bool.eqb mbind option_bind default from_option].
  change (option_bind _ _ cache.Severity_of (Some (JStr (severity_value s))))
    with (cache.Severity_of (JStr (severity_value s))).
  rewrite Severity_of_value.
  cbn [dict_get String.eqb Ascii.eqb Bool.eqb mbind option_bind default from_option].
  change (option_bind _ _ cache.CheckCategory_of (Some (JStr (category_value c))))
    with (cache.CheckCategory_of (JStr (category_value c))).
  now rewrite CheckCategory_of_value.
Qed.

Lemma collect_issue (acc : list Issue) (i : Issue) :
  collect acc (cache.issue_to_dict i) = Returns (acc ++ [i]).
Proof. unfold collect. now rewrite issue_of_item_to_dict. Qed.



Lemma issue_of_item_malformed (item : json) :
  malformed item -> cache.issue_of_item item = Returns None.
Proof.
  intros (d & -> & H). unfold cache.issue_of_item. f_equal.
  destruct (dict_get "file" d) as [f|]; [|reflexivity].
  cbn [mbind option_bind].
  destruct (dict_get "severity" d ≫= cache.Severity_of) as [s|] eqn:Es;
    [|reflexivity].
  cbn [mbind option_bind].
  destruct (dict_get "category" d ≫= cache.CheckCategory_of) as [c|] eqn:Ec;
    [|reflexivity].
  cbn [mbind option_bind].
  destruct (dict_get "message" d) as [m|]; [|reflexivity].
  destruct H as [H|[H|[H|H]]]; discriminate H.
Qed.

Lemma collect_skips (acc : list Issue) (item : json) :
  malformed item -> collect acc item = Returns acc.
Proof. intros Hm. unfold collect. now rewrite (issue_of_item_malformed _ Hm). Qed.

Lemma collect_malformed (items : list json) (acc : list Issue) :
  Forall malformed items -> for_loop items acc collect = Returns acc.
Proof.
  induction 1 as [|item items Hm _ IH]; cbn [for_loop]; [reflexivity|].
  rewrite (collect_skips _ _ Hm). cbn [mbind outcome_bind]. exact IH.
Qed.

Lemma deserialize_unreadable (raw : string) :
  unreadable raw -> cache._deserialize_issues raw = Returns [].
Proof.
  unfold cache._deserialize_issues.
  intros [->|(items & -> & Hall)]; [reflexivity|].
  cbn [cache.iterate mbind outcome_bind]. now apply collect_malformed.
Qed.

(** What [query] does once the index has answered. *)
Lemma query_nearest (c : cache.collection vec) (embedding : vec)
    (threshold d : Q) (m : cache.metadata) :
  cache.nearest c embedding = Some (d, m) ->
  (threshold <= 1 - d)%Q ->
  cache.query c embedding threshold
  = (issues ← cache._deserialize_issues (default "[]" (cache.meta_issues m));
     Returns (Some issues)).
Proof.
  intros Hn Ht. unfold cache.query.
  destruct c as [|x c]; [discriminate Hn|].
  assert (Hc : (cache.count (x :: c) =? 0) = false).
  { apply Z.eqb_neq. unfold cache.count, llen. cbn [length]. lia. }
  rewrite Hc, Hn. unfold Qltb.
  apply Qle_bool_iff in Ht. now rewrite Ht.
Qed.


End review_cache.



(** C1, as the code has it: when the record that answers a query meets
    the threshold and its payload is unreadable (not JSON, or a list of
    items that are all skipped), [query] returns the empty list of issues,
    which is a hit; the cache check of the pipeline counts the
    representative as a cache hit that brings no issue, and does not send
    it to review. *)
Theorem corrupt_entry_is_an_empty_hit {vec : Type} {codec : JsonCodec}
    {space : VectorIndex vec} (c : cache.collection vec) (e : vec)
    (threshold d : Q) (m : cache.metadata) (st : pipeline.check_state vec)
    (fd : FileDiff) :
  cache.nearest c e = Some (d, m) ->
  (threshold <= 1 - d)%Q ->
  unreadable (default "[]" (cache.meta_issues m)) ->
  cache.query c e threshold = Returns (Some [])
  /\ pipeline.check_step c threshold st (fd, e)
     = Returns {| pipeline.needs_review := pipeline.needs_review st;
                  pipeline.needs_review_embeddings :=
                    pipeline.needs_review_embeddings st;
                  pipeline.cached_issues := pipeline.cached_issues st;
                  pipeline.hits := pipeline.hits st + 1;
                  pipeline.cached := pipeline.cached st + 1 |}.
Proof.
  intros Hn Ht Hu.
  assert (Hq : cache.query c e threshold = Returns (Some [])).
  { rewrite (query_nearest _ _ _ _ _ Hn Ht), (deserialize_unreadable _ Hu).
    reflexivity. }
  split; [exact Hq|].
  unfold pipeline.check_step. cbn [fst snd]. rewrite Hq.
  cbn [mbind outcome_bind]. now rewrite app_nil_r.
Qed.

(** C1 on a cache whose one record holds a payload cut short. *)
Lemma corrupt_entry_is_an_empty_hit_witness :
  let e := encode (vec := standin.vector) "aaa" in
  let c :=
    [ {| cache.entry_embedding := e;
         cache.entry_metadata :=
           {| cache.meta_file_path := "a.py";
              cache.meta_issues := Some "[{" |};
         cache.entry_document := "a.py" |} ] in
  cache.query c e (92 # 100) = Returns (Some []).
Proof.
  intros e c.
  refine (proj1 (corrupt_entry_is_an_empty_hit (vec := standin.vector)
                   c e (92 # 100) 0 _ pipeline.check_init
                   {| path := "a.py"; diff := "aaa"; is_new := false;
                      is_deleted := false |} _ _ _)).
  - reflexivity.
  - discriminate.
  - left. reflexivity.
Defined.

(** C1, as the specification has it, fails: with a record whose payload
    is not JSON the query does not return "not found" but the empty list,
    and the pipeline reports one cache hit for the file. *)
Lemma corrupt_entry_is_not_a_miss :
  let e := encode (vec := standin.vector) "aaa" in
  let c :=
    [ {| cache.entry_embedding := e;
         cache.entry_metadata :=
           {| cache.meta_file_path := "a.py";
              cache.meta_issues := Some "[{" |};
         cache.entry_document := "a.py" |} ] in
  json_loads "[{" = None
  /\ cache.query c e (92 # 100) = Returns (Some [])
  /\ cache.query c e (92 # 100) <> Returns None
  /\ exists r,
       pipeline.run_pipeline
         [ {| path := "a.py"; diff := "aaa"; is_new := false; is_deleted := false |} ]
         {| token_budget := 50000; cache_threshold := 92 # 100;
            max_concurrent := 3 |} c
       = Returns (r, c)
       /\ cache_hits r = 1 /\ files_cached r = 1 /\ issues r = [].
Proof.
  intros e c.
  split; [reflexivity|]. split; [reflexivity|]. split; [discriminate|].
  eexists. split; [vm_compute; reflexivity|].
  repeat split; reflexivity.
Qed.

(** ** Filter *)

Section filter_diffs.
Import filter.

Lemma filter_loop (diffs reviewable : list FileDiff) (skipped : list string) :
  fold_left filter_step diffs (reviewable, skipped)
  = (reviewable ++ List.filter (fun fd => negb (_should_skip (path fd))) diffs,
     skipped ++ map path (List.filter (fun fd => _should_skip (path fd)) diffs)).
Proof.
  revert reviewable skipped.
  induction diffs as [|fd diffs IH]; intros reviewable skipped; cbn [fold_left].
  - cbn. now rewrite !app_nil_r.
  - unfold filter_step at 2. cbn [List.filter fst snd].
    destruct (_should_skip (path fd)); cbn [negb fst snd map];
      rewrite IH, <- !app_assoc; reflexivity.
Qed.

(** [filter_diffs] keeps the diffs that are not skipped, in order, and
    lists the paths of the others, in order. *)
Lemma filter_diffs_spec (diffs : list FileDiff) :
  filter_diffs diffs
  = (List.filter (fun fd => negb (_should_skip (path fd))) diffs,
     map path (List.filter (fun fd => _should_skip (path fd)) diffs)).
Proof. unfold filter_diffs. now rewrite filter_loop. Qed.

Lemma list_filter_sublist {B} (f : B -> bool) (l : list B) :
  List.filter f l `sublist_of` l.
Proof.
  induction l as [|x l IH]; cbn; [constructor|].
  destruct (f x); now constructor.
Qed.

Lemma filter_diffs_sublist (diffs : list FileDiff) :
  (filter_diffs diffs).1 `sublist_of` diffs.
Proof. rewrite filter_diffs_spec. apply list_filter_sublist. Qed.

End filter_diffs.

(** ** Pipeline *)

Section run_pipeline.
Context {vec : Type} {np : Numpy vec} {enc : Encoder vec} {codec : JsonCodec}
        {space : VectorIndex vec} {backend : Adapter}.

Lemma nearest_elem (c : cache.collection vec) (e : vec) (d : Q)
    (m : cache.metadata) :
  cache.nearest c e = Some (d, m) ->
  exists x, x ∈ c /\ m = cache.entry_metadata x.
Proof.
  revert d m. induction c as [|y c IH]; intros d m; cbn [cache.nearest];
    [discriminate|].
  destruct (cache.nearest c e) as [[d' m']|].
  - destruct (Qltb d' _); intros H; injection H as <- <-.
    + destruct (IH _ _ eq_refl) as (x & Hx & ->). exists x. split; [now right | reflexivity].
    + exists y. split; [left | reflexivity].
  - intros H. injection H as <- <-. exists y. split; [left | reflexivity].
Qed.

Lemma query_returns (c : cache.collection vec) (e : vec) (threshold : Q) :
  cache_readable c -> exists o, cache.query c e threshold = Returns o.
Proof.
  intros Hc. unfold cache.query.
  destruct (cache.count c =? 0); [eexists; reflexivity|].
  destruct (cache.nearest c e) as [[d m]|] eqn:En; [|eexists; reflexivity].
  destruct (Qltb _ _); [eexists; reflexivity|].
  destruct (nearest_elem _ _ _ _ En) as (x & Hx & ->).
  destruct (Hc x Hx) as [l ->]. eexists. reflexivity.
Qed.

(** The cache check returns; the representatives it sends to review are
    those whose query finds nothing, in order and with their embeddings,
    and it counts the others. *)
Lemma check_loop_spec (c : cache.collection vec) (threshold : Q)
    (pairs : list (FileDiff * vec)) (st0 : pipeline.check_state vec) :
  cache_readable c ->
  exists st,
    for_loop pairs st0 (pipeline.check_step c threshold) = Returns st
    /\ pipeline.needs_review st
       = pipeline.needs_review st0 ++ (List.filter (misses c threshold) pairs).*1
    /\ pipeline.needs_review_embeddings st
       = pipeline.needs_review_embeddings st0
         ++ (List.filter (misses c threshold) pairs).*2
    /\ pipeline.hits st
       = pipeline.hits st0
         + llen (List.filter (fun x => negb (misses c threshold x)) pairs)
    /\ pipeline.cached st = pipeline.cached st0 + (pipeline.hits st - pipeline.hits st0).
Proof.
  intros Hc. revert st0.
  induction pairs as [|x pairs IH]; intros st0; cbn [for_loop].
  - exists st0. cbn. rewrite !app_nil_r. repeat split; unfold llen; cbn; lia.
  - destruct (query_returns c x.2 threshold Hc) as [o Ho].
    assert (Hm : misses c threshold x
                 = match o with Some _ => false | None => true end)
      by (unfold misses; now rewrite Ho).
    assert (Hs : pipeline.check_step c threshold st0 x
                 = Returns
                     match o with
                     | Some l =>
                         {| pipeline.needs_review := pipeline.needs_review st0;
                            pipeline.needs_review_embeddings :=
                              pipeline.needs_review_embeddings st0;
                            pipeline.cached_issues := pipeline.cached_issues st0 ++ l;
                            pipeline.hits := pipeline.hits st0 + 1;
                            pipeline.cached := pipeline.cached st0 + 1 |}
                     | None =>
                         {| pipeline.needs_review := pipeline.needs_review st0 ++ [x.1];
                            pipeline.needs_review_embeddings :=
                              pipeline.needs_review_embeddings st0 ++ [x.2];
                            pipeline.cached_issues := pipeline.cached_issues st0;
                            pipeline.hits := pipeline.hits st0;
                            pipeline.cached := pipeline.cached st0 |}
                     end)
      by (unfold pipeline.check_step; rewrite Ho; now destruct o).
    rewrite Hs. cbn [mbind outcome_bind List.filter]. rewrite Hm.
    destruct o as [l|]; cbn [negb].
    + edestruct IH as (st & -> & H1 & H2 & H3 & H4).
      exists st. split; [reflexivity|].
      cbn [pipeline.needs_review pipeline.needs_review_embeddings pipeline.hits
           pipeline.cached] in *.
      split; [exact H1|]. split; [exact H2|].
      unfold llen in *. cbn [length]. split; lia.
    + edestruct IH as (st & -> & H1 & H2 & H3 & H4).
      exists st. split; [reflexivity|].
      cbn [pipeline.needs_review pipeline.needs_review_embeddings pipeline.hits
           pipeline.cached] in *.
      rewrite H1, H2, <- !app_assoc. cbn [fmap list_fmap app fst snd].
      split; [reflexivity|]. split; [reflexivity|]. split; lia.
Qed.

(** What [run_pipeline] returns, from what its stages return. *)
Lemma run_pipeline_returns (diffs : list FileDiff) (config : LocalDuckConfig)
    (c : cache.collection vec) (dr : dedup.DedupResult vec)
    (st : pipeline.check_state vec) :
  dedup.deduplicate (reviewable_of diffs) (cache_threshold config) = Returns dr ->
  for_loop (zip (dedup.unique dr) (dedup.embeddings dr)) pipeline.check_init
           (pipeline.check_step c (cache_threshold config))
  = Returns st ->
  0 < max_concurrent config ->
  pipeline.run_pipeline diffs config c
  = Returns
      ({| issues := pipeline.propagate (dedup.groups dr) (merged config st);
          files_scanned := llen (reviewable_of diffs) - llen (batched config st).2;
          files_skipped := llen (filter.filter_diffs diffs).2;
          files_cached := pipeline.cached st;
          files_deduped := zsum (map llen (dict_values (dedup.groups dr)));
          token_usage := 0;
          cache_hits := pipeline.hits st;
          skipped_files := (filter.filter_diffs diffs).2 ++ (batched config st).2 |},
       pipeline._store_in_background c (pipeline.needs_review st)
         (pipeline.needs_review_embeddings st) (merged config st)).
Proof.
  intros Hd Hl Hm. unfold pipeline.run_pipeline, merged, batched, reviewable_of in *.
  destruct (filter.filter_diffs diffs) as [rv sk]. cbn [fst snd] in *.
  destruct rv as [|fd rv]; cbn [batcher.nonempty negb].
  - cbn in Hd. injection Hd as <-. cbn in Hl. injection Hl as <-.
    cbn. now rewrite app_nil_r.
  - rewrite Hd. cbn [mbind outcome_bind]. rewrite Hl. cbn [mbind outcome_bind].
    fold (budget_of config).
    destruct (batcher.batch_diffs _ _ _) as [bs dropped]. cbn [fst snd].
    unfold pipeline.Semaphore, pipeline.gather.
    replace (max_concurrent config <? 0) with false by (symmetry; apply Z.ltb_ge; lia).
    cbn [mbind outcome_bind].
    replace (max_concurrent config =? 0) with false by (symmetry; apply Z.eqb_neq; lia).
    reflexivity.
Qed.

Lemma clone_loop (dup_path : string) (rep_issues acc : list Issue) :
  fold_left (fun acc issue => acc ++ [pipeline.retarget dup_path issue])
            rep_issues acc
  = acc ++ map (pipeline.retarget dup_path) rep_issues.
Proof.
  revert acc. induction rep_issues as [|i l IH]; intros acc; cbn [fold_left map].
  - now rewrite app_nil_r.
  - rewrite IH, <- app_assoc. reflexivity.
Qed.

Lemma propagate_group_clones (all_issues : list Issue) (g : string * list string) :
  pipeline.propagate_group all_issues g = all_issues ++ clones_of all_issues g.
Proof.
  unfold pipeline.propagate_group, clones_of.
  generalize (List.filter (file_is g.1) all_issues) as rep_issues.
  intros rep_issues. generalize all_issues as acc.
  induction g.2 as [|d ds IH]; intros acc; cbn [fold_left flat_map].
  - now rewrite app_nil_r.
  - rewrite clone_loop, IH, <- app_assoc. reflexivity.
Qed.

(** The fan-out only appends. *)
Lemma propagate_appends (groups : list (string * list string))
    (all_issues : list Issue) :
  exists clones,
    pipeline.propagate groups all_issues = all_issues ++ clones
    /\ Forall (fun i => exists g d j,
                 g ∈ groups /\ d ∈ g.2 /\ i = pipeline.retarget d j) clones.
Proof.
  unfold pipeline.propagate. revert all_issues.
  induction groups as [|g groups IH]; intros all_issues; cbn [fold_left].
  - exists []. split; [now rewrite app_nil_r | constructor].
  - destruct (IH (pipeline.propagate_group all_issues g)) as (clones & -> & Hall).
    rewrite propagate_group_clones, <- app_assoc.
    eexists. split; [reflexivity|]. apply Forall_app. split.
    + unfold clones_of. apply Forall_forall. intros i Hi.
      apply list_elem_of_In, in_flat_map in Hi as (d & Hd & Hi).
      apply in_map_iff in Hi as (j & <- & _).
      exists g, d, j. split; [left|]. split; [now apply list_elem_of_In | reflexivity].
    + eapply Forall_impl; [exact Hall|]. cbn.
      intros i (g' & d & j & Hg & Hd & ->). exists g', d, j.
      split; [now right | now split].
Qed.





(** Step 7 appends one record for every pair it is given. *)
Lemma store_in_background_spec (c : cache.collection vec)
    (pairs : list (FileDiff * vec)) (all_issues : list Issue) :
  pipeline._store_in_background c pairs.*1 pairs.*2 all_issues
  = c ++ map (stored_entry all_issues) pairs.
Proof.
  unfold pipeline._store_in_background. rewrite zip_fst_snd.
  revert c. induction pairs as [|x pairs IH]; intros c; cbn [fold_left map].
  - now rewrite app_nil_r.
  - rewrite IH. unfold cache.store, stored_entry. now rewrite <- app_assoc.
Qed.


Lemma reviewable_of_length (diffs : list FileDiff) :
  llen (reviewable_of diffs) = llen (filter.filter_diffs diffs).1.
Proof.
  unfold llen, reviewable_of, batcher.prioritize_diffs.
  now rewrite (sorted_desc_perm batcher._risk_score).
Qed.

Lemma reviewable_of_NoDup (diffs : list FileDiff) :
  NoDup (path <$> diffs) -> NoDup (path <$> reviewable_of diffs).
Proof.
  intros Hnd. unfold reviewable_of, batcher.prioritize_diffs.
  rewrite (sorted_desc_perm batcher._risk_score).
  eapply sublist_NoDup; [exact Hnd|].
  apply fmap_sublist. apply filter_diffs_sublist.
Qed.

(** The cache check, when it returns. *)
Lemma check_loop_inv (c : cache.collection vec) (threshold : Q)
    (pairs : list (FileDiff * vec)) (st0 st : pipeline.check_state vec) :
  for_loop pairs st0 (pipeline.check_step c threshold) = Returns st ->
  pipeline.needs_review st
  = pipeline.needs_review st0 ++ (List.filter (misses c threshold) pairs).*1
  /\ pipeline.needs_review_embeddings st
     = pipeline.needs_review_embeddings st0
       ++ (List.filter (misses c threshold) pairs).*2.
Proof.
  revert st0. induction pairs as [|x pairs IH]; intros st0; cbn [for_loop].
  - intros H. injection H as <-. cbn. now rewrite !app_nil_r.
  - intros H. cbn [List.filter].
    assert (Hm : misses c threshold x
                 = match cache.query c x.2 threshold with
                   | Returns (Some _) => false
                   | _ => true
                   end) by reflexivity.
    rewrite Hm. clear Hm.
    assert (Hs : pipeline.check_step c threshold st0 x
                 = (found ← cache.query c x.2 threshold;
                    match found with
                    | Some l =>
                        Returns
                          {| pipeline.needs_review := pipeline.needs_review st0;
                             pipeline.needs_review_embeddings :=
                               pipeline.needs_review_embeddings st0;
                             pipeline.cached_issues :=
                               pipeline.cached_issues st0 ++ l;
                             pipeline.hits := pipeline.hits st0 + 1;
                             pipeline.cached := pipeline.cached st0 + 1 |}
                    | None =>
                        Returns
                          {| pipeline.needs_review :=
                               pipeline.needs_review st0 ++ [x.1];
                             pipeline.needs_review_embeddings :=
                               pipeline.needs_review_embeddings st0 ++ [x.2];
                             pipeline.cached_issues := pipeline.cached_issues st0;
                             pipeline.hits := pipeline.hits st0;
                             pipeline.cached := pipeline.cached st0 |}
                    end)) by reflexivity.
    rewrite Hs in H. clear Hs.
    destruct (cache.query c x.2 threshold) as [[l|]|e|];
      cbn [mbind outcome_bind] in H; try discriminate H;
      apply IH in H as [H1 H2];
      cbn [pipeline.needs_review pipeline.needs_review_embeddings] in H1, H2.
    + now split.
    + rewrite H1, H2, <- !app_assoc. now split.
Qed.

(** What [run_pipeline] returned, when it returns. *)
Lemma run_pipeline_inv (diffs : list FileDiff) (config : LocalDuckConfig)
    (c : cache.collection vec) (r : ScanResult) (c' : cache.collection vec) :
  pipeline.run_pipeline diffs config c = Returns (r, c') ->
  exists dr st,
    dedup.deduplicate (reviewable_of diffs) (cache_threshold config) = Returns dr
    /\ for_loop (zip (dedup.unique dr) (dedup.embeddings dr)) pipeline.check_init
                (pipeline.check_step c (cache_threshold config))
       = Returns st
    /\ r = {| issues := pipeline.propagate (dedup.groups dr) (merged config st);
              files_scanned :=
                llen (reviewable_of diffs) - llen (batched config st).2;
              files_skipped := llen (filter.filter_diffs diffs).2;
              files_cached := pipeline.cached st;
              files_deduped := zsum (map llen (dict_values (dedup.groups dr)));
              token_usage := 0;
              cache_hits := pipeline.hits st;
              skipped_files :=
                (filter.filter_diffs diffs).2 ++ (batched config st).2 |}
    /\ c' = pipeline._store_in_background c (pipeline.needs_review st)
              (pipeline.needs_review_embeddings st) (merged config st).
Proof.
  intros Hrun.
  destruct (deduplicate_returns (reviewable_of diffs) (cache_threshold config))
    as (dr & Hd & _).
  exists dr. revert Hrun. revert Hd.
  unfold pipeline.run_pipeline, merged, batched, reviewable_of.
  destruct (filter.filter_diffs diffs) as [rv sk]. cbn [fst snd].
  destruct rv as [|fd rv]; cbn [batcher.nonempty negb]; intros Hd.
  - intros Hret. injection Hret as <- <-.
    cbn in Hd. injection Hd as <-. exists pipeline.check_init.
    split; [reflexivity|]. split; [reflexivity|]. cbn.
    now rewrite app_nil_r.
  - rewrite Hd. cbn [mbind outcome_bind].
    destruct (for_loop _ _ _) as [st|e|]; cbn [mbind outcome_bind];
      try discriminate.
    fold (budget_of config).
    destruct (batcher.batch_diffs _ _ _) as [bs dropped] eqn:Eb. cbn [fst snd].
    unfold pipeline.Semaphore, pipeline.gather.
    destruct (max_concurrent config <? 0); cbn [mbind outcome_bind];
      try discriminate.
    destruct ((max_concurrent config =? 0) && batcher.nonempty bs);
      cbn [mbind outcome_bind]; try discriminate.
    intros Hret. injection Hret as <- <-. exists st. rewrite Eb.
    repeat split; reflexivity.
Qed.

(** The result of a run and the cache it leaves, when it returns. *)
Lemma pipeline_stages_inv (diffs : list FileDiff) (config : LocalDuckConfig)
    (c : cache.collection vec) (r : ScanResult) (c' : cache.collection vec) :
  pipeline.run_pipeline diffs config c = Returns (r, c') ->
  exists dr st,
    dedup.deduplicate (reviewable_of diffs) (cache_threshold config) = Returns dr
    /\ for_loop (zip (dedup.unique dr) (dedup.embeddings dr)) pipeline.check_init
                (pipeline.check_step c (cache_threshold config))
       = Returns st
    /\ r = {| issues := pipeline.propagate (dedup.groups dr) (merged config st);
              files_scanned :=
                llen (reviewable_of diffs) - llen (batched config st).2;
              files_skipped := llen (filter.filter_diffs diffs).2;
              files_cached := pipeline.cached st;
              files_deduped := zsum (map llen (dict_values (dedup.groups dr)));
              token_usage := 0;
              cache_hits := pipeline.hits st;
              skipped_files :=
                (filter.filter_diffs diffs).2 ++ (batched config st).2 |}
    /\ c' = c ++ map (stored_entry (merged config st))
                     (List.filter (misses c (cache_threshold config))
                                  (zip (dedup.unique dr) (dedup.embeddings dr)))
    /\ (zip (dedup.unique dr) (dedup.embeddings dr)).*1 = dedup.unique dr
    /\ pipeline.needs_review st
       = (List.filter (misses c (cache_threshold config))
                      (zip (dedup.unique dr) (dedup.embeddings dr))).*1
    /\ (NoDup (path <$> diffs) ->
        llen (dedup.unique dr) + zsum (map llen (dict_values (dedup.groups dr)))
        = llen (reviewable_of diffs)
        /\ forall g g' d, g ∈ dedup.groups dr -> g' ∈ dedup.groups dr ->
                          d ∈ g.2 -> d <> g'.1).
Proof.
  intros Hrun.
  destruct (run_pipeline_inv _ _ _ _ _ Hrun) as (dr & st & Hd & Hl & Hr & Hc').
  destruct (deduplicate_returns (reviewable_of diffs) (cache_threshold config))
    as (dr' & Hd' & _ & Hlen & Hperm).
  rewrite Hd in Hd'. injection Hd' as <-.
  destruct (check_loop_inv _ _ _ _ _ Hl) as [Hnr Hnre].
  cbn [pipeline.check_init pipeline.needs_review pipeline.needs_review_embeddings
       app] in Hnr, Hnre.
  exists dr, st. split; [exact Hd|]. split; [exact Hl|]. split; [exact Hr|].
  split; [now rewrite Hc', Hnr, Hnre, store_in_background_spec|].
  split; [apply fst_zip; lia|]. split; [exact Hnr|].
  intros Hnd.
  destruct (Hperm (reviewable_of_NoDup _ Hnd)) as [Hp Hkeys]. split.
  { pose proof (Permutation_length Hp) as Hn.
    rewrite length_app, !length_fmap in Hn.
    rewrite zsum_llen_concat. unfold llen. lia. }
  intros g g' d Hg Hg' Hdg ->.
  assert (Hall : NoDup ((path <$> dedup.unique dr)
                        ++ concat (dict_values (dedup.groups dr)))).
  { rewrite Hp. now apply reviewable_of_NoDup. }
  apply NoDup_app in Hall as (_ & Hdis & _).
  apply (Hdis g'.1).
  - apply Hkeys. now apply list_elem_of_fmap_2.
  - apply list_elem_of_In, in_concat. exists g.2. split.
    + unfold dict_values. apply in_map. now apply list_elem_of_In.
    + now apply list_elem_of_In.
Qed.

(** A run returns when the concurrency limit is positive and every
    payload of the cache is readable. *)
Lemma run_pipeline_total (diffs : list FileDiff) (config : LocalDuckConfig)
    (c : cache.collection vec) :
  0 < max_concurrent config -> cache_readable c ->
  exists r c', pipeline.run_pipeline diffs config c = Returns (r, c').
Proof.
  intros Hm Hc.
  destruct (deduplicate_returns (reviewable_of diffs) (cache_threshold config))
    as (dr & Hd & _).
  destruct (check_loop_spec c (cache_threshold config)
              (zip (dedup.unique dr) (dedup.embeddings dr)) pipeline.check_init Hc)
    as (st & Hl & _).
  eexists _, _. exact (run_pipeline_returns _ _ _ _ _ Hd Hl Hm).
Qed.

End run_pipeline.

(** C2, as the code has it: a run returns when the concurrency limit is
    positive and the cache is readable, and whenever it returns,
    [files_scanned] is the number of diffs that pass the filter minus the
    number of paths dropped for the token budget.  The diffs that pass
    the filter are the representatives and, for pairwise distinct paths,
    the duplicates they absorbed: the count is then the number of
    representatives plus [files_deduped], minus the number of dropped
    paths. *)
Theorem files_scanned_counts_filtered_diffs {vec : Type} {np : Numpy vec}
    {enc : Encoder vec} {codec : JsonCodec} {space : VectorIndex vec}
    {backend : Adapter} (diffs : list FileDiff) (config : LocalDuckConfig)
    (c : cache.collection vec) :
  (0 < max_concurrent config -> cache_readable c ->
   exists r c', pipeline.run_pipeline diffs config c = Returns (r, c'))
  /\ forall r c',
       pipeline.run_pipeline diffs config c = Returns (r, c') ->
       exists dr st,
         dedup.deduplicate (reviewable_of diffs) (cache_threshold config)
         = Returns dr
         /\ for_loop (zip (dedup.unique dr) (dedup.embeddings dr))
                     pipeline.check_init
                     (pipeline.check_step c (cache_threshold config))
            = Returns st
         /\ files_scanned r
            = llen (filter.filter_diffs diffs).1 - llen (batched config st).2
         /\ files_skipped r = llen (filter.filter_diffs diffs).2
         /\ (NoDup (path <$> diffs) ->
             files_scanned r
             = llen (dedup.unique dr) + files_deduped r
               - llen (batched config st).2).
Proof.
  split; [apply run_pipeline_total|].
  intros r c' Hrun.
  destruct (pipeline_stages_inv diffs config c r c' Hrun)
    as (dr & st & Hd & Hl & -> & _ & _ & _ & Hnd).
  exists dr, st. split; [exact Hd|]. split; [exact Hl|].
  cbn [files_scanned files_skipped files_deduped].
  split; [now rewrite reviewable_of_length|]. split; [reflexivity|].
  intros Hpaths. destruct (Hnd Hpaths) as [Hcount _]. lia.
Qed.

(** C2 on three files, two of them with the same text, and an empty
    cache. *)
Lemma files_scanned_counts_filtered_diffs_witness :
  let diffs :=
    [ {| path := "a.py"; diff := "aaa"; is_new := false; is_deleted := false |};
      {| path := "b.py"; diff := "aaa"; is_new := false; is_deleted := false |};
      {| path := "logo.png"; diff := "bbb"; is_new := true; is_deleted := false |} ] in
  let config :=
    {| token_budget := 50000; cache_threshold := 92 # 100; max_concurrent := 3 |} in
  exists r c',
    pipeline.run_pipeline (vec := standin.vector) diffs config [] = Returns (r, c')
    /\ files_scanned r = 2 /\ files_skipped r = 1 /\ files_deduped r = 1.
Proof.
  intros diffs config.
  destruct (files_scanned_counts_filtered_diffs (vec := standin.vector)
              diffs config []) as [Htotal Hinv].
  destruct Htotal as (r & c' & Hrun).
  - reflexivity.
  - intros x Hx. apply elem_of_nil in Hx. destruct Hx.
  - exists r, c'. split; [exact Hrun|].
    destruct (Hinv r c' Hrun) as (dr & st & Hd & Hl & Hscanned & Hskipped & _).
    vm_compute in Hd. injection Hd as <-.
    vm_compute in Hl. injection Hl as <-.
    split; [rewrite Hscanned; reflexivity|].
    split; [rewrite Hskipped; reflexivity|].
    vm_compute in Hrun. injection Hrun as <- _. reflexivity.
Defined.

(** C2, as the specification has it, fails: of two files with the same
    text one is the representative and no path is dropped, so the count
    would be one; the pipeline reports two files scanned. *)
Lemma files_scanned_is_not_the_number_of_representatives :
  let diffs :=
    [ {| path := "a.py"; diff := "aaa"; is_new := false; is_deleted := false |};
      {| path := "b.py"; diff := "aaa"; is_new := false; is_deleted := false |} ] in
  let config :=
    {| token_budget := 50000; cache_threshold := 92 # 100; max_concurrent := 3 |} in
  exists r c' dr,
    pipeline.run_pipeline (vec := standin.vector) diffs config [] = Returns (r, c')
    /\ dedup.deduplicate (vec := standin.vector)
         (batcher.prioritize_diffs (filter.filter_diffs diffs).1)
         (cache_threshold config)
       = Returns dr
    /\ llen (dedup.unique dr) = 1
    /\ skipped_files r = []
    /\ files_scanned r = 2
    /\ files_scanned r <> llen (dedup.unique dr) - llen (skipped_files r).
Proof.
  eexists _, _, _. split; [vm_compute; reflexivity|].
  split; [vm_compute; reflexivity|].
  split; [reflexivity|]. split; [reflexivity|]. split; [reflexivity|].
  discriminate.
Qed.





(** * Further properties *)

(** ** Filter *)

Section suffixes.

Lemma string_app_assoc (a b c : string) : (a +:+ b) +:+ c = a +:+ (b +:+ c).
Proof.
  induction a as [|x a IH]; [now rewrite !append_nil|].
  now rewrite !append_cons, IH.
Qed.

Lemma string_app_nil_r (a : string) : a +:+ "" = a.
Proof. induction a as [|x a IH]; [reflexivity|]. now rewrite append_cons, IH. Qed.

Lemma string_rev_app (s t : string) : String.rev_app s t = String.rev s +:+ t.
Proof.
  unfold String.rev. revert t.
  induction s as [|a s IH]; intros t; cbn [String.rev_app].
  - now rewrite append_nil.
  - rewrite IH, (IH (String a "")), string_app_assoc, append_cons, append_nil.
    reflexivity.
Qed.

Lemma string_rev_cons (a : ascii) (s : string) :
  String.rev (String a s) = String.rev s +:+ String a "".
Proof. unfold String.rev at 1. cbn [String.rev_app]. apply string_rev_app. Qed.

Lemma string_rev_append (s t : string) :
  String.rev (s +:+ t) = String.rev t +:+ String.rev s.
Proof.
  induction s as [|a s IH].
  - now rewrite append_nil, string_app_nil_r.
  - now rewrite append_cons, !string_rev_cons, IH, string_app_assoc.
Qed.

Lemma string_rev_involutive (s : string) : String.rev (String.rev s) = s.
Proof.
  induction s as [|a s IH]; [reflexivity|].
  rewrite string_rev_cons, string_rev_append, IH. reflexivity.
Qed.

Lemma endswith_spec (s x : string) :
  pystr.endswith s x = true <-> ends_with s x.
Proof.
  unfold pystr.endswith, ends_with. rewrite startswith_spec. split.
  - intros [r Hr]. exists (String.rev r).
    rewrite <- (string_rev_involutive s), Hr, string_rev_append, string_rev_involutive. reflexivity.
  - intros [pre ->]. exists (String.rev pre). apply string_rev_append.
Qed.

Lemma ends_with_prefix (d s x : string) : ends_with s x -> ends_with (d +:+ s) x.
Proof. intros [pre ->]. exists (d +:+ pre). now rewrite string_app_assoc. Qed.

Lemma lower_append (s t : string) :
  pystr.lower (s +:+ t) = pystr.lower s +:+ pystr.lower t.
Proof.
  induction s as [|a s IH]; [now rewrite !append_nil|].
  rewrite append_cons. cbn [pystr.lower]. now rewrite append_cons, IH.
Qed.

End suffixes.

Section should_skip.
Import filter.

Lemma matches_name_spec (p name : string) :
  matches_name p name = true
  <-> exists q, chomped p q
                /\ (q = name \/ ends_with q (String "/" name)).
Proof.
  unfold matches_name. cbv zeta.
  rewrite !orb_true_iff, !String.eqb_eq, !endswith_spec. split.
  - intros [H|H].
    + exists p. split; [now left|exact H].
    + destruct (String.rev p) as [|c r] eqn:Er.
      * exists p. split; [now left|].
        assert (p = "") as -> by now rewrite <- (string_rev_involutive p), Er.
        exact H.
      * destruct (Ascii.eqb c pystr.newline) eqn:Ec.
        -- apply Ascii.eqb_eq in Ec. subst c.
           exists (String.rev r). split; [|exact H]. right.
           now rewrite <- (string_rev_involutive p), Er, string_rev_cons.
        -- exists p. split; [now left|].
           now rewrite <- Er, string_rev_involutive in H.
  - intros (q & [->| ->] & H); [now left|]. right.
    rewrite string_rev_append.
    replace (String.rev (String pystr.newline "")) with (String pystr.newline "")
      by reflexivity.
    rewrite append_cons, append_nil, Ascii.eqb_refl, string_rev_involutive.
    exact H.
Qed.

Lemma should_skip_spec (p : string) :
  _should_skip p = true
  <-> (exists ext, ext ∈ _SKIP_EXTENSIONS /\ ends_with (pystr.lower p) ext)
      \/ (exists name q,
            name ∈ _SKIP_NAMES /\ chomped p q
            /\ (q = name \/ ends_with q (String "/" name))).
Proof.
  unfold _should_skip. rewrite orb_true_iff, !existsb_exists.
  split; (intros [H|H]; [left|right]).
  - destruct H as (ext & Hin & H). exists ext.
    split; [now apply list_elem_of_In|now apply endswith_spec].
  - destruct H as (name & Hin & H). apply matches_name_spec in H as (q & H).
    exists name, q. split; [now apply list_elem_of_In|exact H].
  - destruct H as (ext & Hin & H). exists ext.
    split; [now apply list_elem_of_In|now apply endswith_spec].
  - destruct H as (name & q & Hin & H). exists name.
    split; [now apply list_elem_of_In|]. apply matches_name_spec. now exists q.
Qed.

End should_skip.

(** X1: a path is skipped exactly when its lower-cased form ends with one
    of the listed extensions, or when the path, a final newline apart, is
    one of the listed file names or ends with a slash and such a name.
    The extension is compared without regard to case, the name with its
    case. *)
Theorem should_skip_by_extension_or_name (p : string) :
  filter._should_skip p = true
  <-> (exists ext, ext ∈ filter._SKIP_EXTENSIONS
                   /\ ends_with (pystr.lower p) ext)
      \/ (exists name q,
            name ∈ filter._SKIP_NAMES /\ chomped p q
            /\ (q = name \/ ends_with q (String "/" name))).
Proof. apply should_skip_spec. Qed.

(** X2: a path that is skipped is skipped in every directory: putting a
    directory in front of it does not make it reviewable. *)
Theorem should_skip_in_any_directory (dir p : string) :
  filter._should_skip p = true ->
  filter._should_skip (dir +:+ String "/" p) = true.
Proof.
  rewrite !should_skip_spec. intros [(ext & Hin & H)|(name & q & Hin & Hq & H)].
  - left. exists ext. split; [exact Hin|].
    rewrite lower_append. apply ends_with_prefix. cbn [pystr.lower].
    exact (ends_with_prefix (String _ "") _ _ H).
  - right. exists name, (dir +:+ String "/" q). split; [exact Hin|]. split.
    + destruct Hq as [->| ->]; [now left|right].
      now rewrite string_app_assoc, append_cons.
    + right. destruct H as [->|H].
      * now exists dir.
      * apply ends_with_prefix. exact (ends_with_prefix (String "/" "") _ _ H).
Qed.

Lemma should_skip_in_any_directory_witness :
  filter._should_skip "yarn.lock" = true
  /\ filter._should_skip ("packages/web" +:+ String "/" "yarn.lock") = true.
Proof.
  split; [reflexivity|].
  apply (should_skip_in_any_directory "packages/web" "yarn.lock"). reflexivity.
Defined.

Lemma filter_diffs_length (diffs : list FileDiff) :
  llen (filter.filter_diffs diffs).1 + llen (filter.filter_diffs diffs).2
  = llen diffs.
Proof.
  rewrite filter_diffs_spec. cbn [fst snd]. unfold llen. rewrite length_map.
  induction diffs as [|fd l IH]; [reflexivity|].
  cbn [List.filter]. destruct (filter._should_skip (path fd));
    cbn [negb length]; lia.
Qed.

(** X3: [filter_diffs] splits its input in two without reordering: the
    reviewable diffs are those whose path is not skipped, the skipped
    paths those of the others, and their numbers add up to the number of
    diffs. *)
Theorem filter_diffs_partitions_its_input (diffs : list FileDiff) :
  let r := filter.filter_diffs diffs in
  r.1 = List.filter (fun fd => negb (filter._should_skip (path fd))) diffs
  /\ r.2 = map path (List.filter (fun fd => filter._should_skip (path fd)) diffs)
  /\ r.1 `sublist_of` diffs
  /\ r.2 `sublist_of` path <$> diffs
  /\ llen r.1 + llen r.2 = llen diffs
  /\ (forall fd, fd ∈ r.1 -> filter._should_skip (path fd) = false)
  /\ (forall p, p ∈ r.2 -> filter._should_skip p = true).
Proof.
  intros r. subst r. rewrite filter_diffs_spec. cbn [fst snd].
  split; [reflexivity|]. split; [reflexivity|].
  split; [apply list_filter_sublist|].
  split; [apply fmap_sublist, list_filter_sublist|]. split.
  - pose proof (filter_diffs_length diffs) as H.
    now rewrite filter_diffs_spec in H.
  - split.
    + intros fd [_ H]%list_elem_of_In%filter_In. now apply negb_true_iff.
    + intros p (fd & -> & [_ H]%list_elem_of_In%filter_In)%list_elem_of_fmap.
      exact H.
Qed.

(** ** Batches *)

Section batches.
Import batcher.

Lemma fold_left_invariant {A St} (I : list A -> St -> Prop)
    (step : St -> A -> St) (l : list A) (s0 : St) :
  I [] s0 ->
  (forall done a s, I done s -> I (done ++ [a]) (step s a)) ->
  I l (fold_left step l s0).
Proof.
  intros H0 Hstep.
  enough (forall pre s, I pre s -> I (pre ++ l) (fold_left step l s))
    as H by exact (H [] s0 H0).
  induction l as [|a l IH]; intros pre s Hs; cbn [fold_left].
  - now rewrite app_nil_r.
  - replace (pre ++ a :: l) with ((pre ++ [a]) ++ l) by now rewrite <- app_assoc.
    apply IH, Hstep, Hs.
Qed.

Lemma batch_tokens_snoc (b : list FileDiff) (fd : FileDiff) :
  batch_tokens (b ++ [fd]) = batch_tokens b + estimate_tokens (diff fd).
Proof.
  unfold batch_tokens. rewrite map_app, zsum_app. unfold zsum. cbn. lia.
Qed.

Lemma estimate_tokens_nonneg (text : string) : 0 <= estimate_tokens text.
Proof.
  unfold estimate_tokens, CHARS_PER_TOKEN, pystr.len.
  apply Z.div_pos; lia.
Qed.

Lemma nonempty_false {A} (l : list A) : nonempty l = false -> l = [].
Proof. now destruct l. Qed.

Lemma nonempty_true {A} (l : list A) : nonempty l = true <-> l <> [].
Proof. now destruct l. Qed.

(** A diff within the budget joins the diffs placed so far, at their
    end; one over the budget only adds its path to the skipped ones. *)
Lemma batch_step_placed (m : Z) (budget : option Z) (st : batch_state)
    (fd : FileDiff) :
  let st' := batch_step m budget st fd in
  if over_budget budget (total_tokens st) (estimate_tokens (diff fd)) then
    concat (batches st') ++ current_batch st'
    = concat (batches st) ++ current_batch st
    /\ skipped st' = skipped st ++ [path fd]
  else
    concat (batches st') ++ current_batch st'
    = (concat (batches st) ++ current_batch st) ++ [fd]
    /\ skipped st' = skipped st.
Proof.
  unfold batch_step.
  destruct (over_budget _ _ _); [now split|].
  destruct (m <? estimate_tokens (diff fd)).
  - destruct (nonempty (current_batch st)) eqn:E;
      cbn [batches skipped current_batch]; (split; [|reflexivity]).
    + rewrite !concat_app. cbn [concat]. now rewrite !app_nil_r.
    + rewrite (nonempty_false _ E), concat_app. cbn [concat].
      now rewrite !app_nil_r.
  - destruct (m <? current_tokens st + estimate_tokens (diff fd));
      cbn [batches skipped current_batch]; (split; [|reflexivity]).
    + rewrite concat_app. cbn [concat app]. now rewrite !app_nil_r.
    + now rewrite app_assoc.
Qed.

Lemma batch_step_sizes (m : Z) (budget : option Z) (st : batch_state)
    (fd : FileDiff) :
  let fits b :=
    batch_tokens b <= m
    \/ exists fd, b = [fd] /\ m < estimate_tokens (diff fd) in
  Forall (fun b => b <> []) (batches st) ->
  current_tokens st = batch_tokens (current_batch st) ->
  current_batch st = [] \/ batch_tokens (current_batch st) <= m ->
  Forall fits (batches st) ->
  let st' := batch_step m budget st fd in
  Forall (fun b => b <> []) (batches st')
  /\ current_tokens st' = batch_tokens (current_batch st')
  /\ (current_batch st' = [] \/ batch_tokens (current_batch st') <= m)
  /\ Forall fits (batches st').
Proof.
  intros fits Hne Hct Hfit Hbs. unfold batch_step.
  destruct (over_budget _ _ _); [now split; [|split; [|split]]|].
  pose proof (estimate_tokens_nonneg (diff fd)) as Hpos.
  destruct (m <? estimate_tokens (diff fd)) eqn:Ebig.
  - apply Z.ltb_lt in Ebig.
    assert (Hfd : fits [fd]) by (right; now exists fd).
    destruct (nonempty (current_batch st)) eqn:E;
      cbn [batches skipped current_batch current_tokens].
    + apply nonempty_true in E.
      assert (Hcur : fits (current_batch st))
        by (left; destruct Hfit as [Hfit|Hfit]; [contradiction|exact Hfit]).
      split; [|split; [|split]]; [|reflexivity|now left|];
        rewrite !Forall_app, !Forall_singleton; auto.
    + split; [|split; [|split]]; [|assumption|assumption|];
        rewrite Forall_app, Forall_singleton; auto.
  - apply Z.ltb_ge in Ebig.
    destruct (m <? current_tokens st + estimate_tokens (diff fd)) eqn:Eflush;
      cbn [batches skipped current_batch current_tokens].
    + apply Z.ltb_lt in Eflush.
      assert (Hcur : current_batch st <> []).
      { intros E. rewrite E in Hct. cbn in Hct. lia. }
      assert (Hone : batch_tokens [fd] = estimate_tokens (diff fd))
        by (unfold batch_tokens, zsum; cbn; lia).
      cbn [app]. rewrite Hone.
      split; [|split; [|split]]; [|lia|right; lia|];
        rewrite Forall_app, Forall_singleton.
      * auto.
      * split; [assumption|]. left.
        destruct Hfit as [Hfit|Hfit]; [contradiction|exact Hfit].
    + apply Z.ltb_ge in Eflush. rewrite batch_tokens_snoc.
      split; [|split; [|split]]; [assumption|lia|right; lia|assumption].
Qed.

Lemma batch_step_inv (m : Z) (budget : option Z) (done : list FileDiff)
    (st : batch_state) (fd : FileDiff) :
  batch_inv m done st -> batch_inv m (done ++ [fd]) (batch_step m budget st fd).
Proof.
  intros (Hsub & Hsk & Hperm & Hne & Hct & Hfit & Hbs).
  pose proof (batch_step_sizes m budget st fd Hne Hct Hfit Hbs) as Hsizes.
  pose proof (batch_step_placed m budget st fd) as Hplaced.
  cbv zeta in Hsizes, Hplaced. unfold batch_inv.
  split; [|split; [|split]]; [| | |exact Hsizes];
    rewrite ?(fmap_app path done); cbn [fmap list_fmap];
    destruct (over_budget _ _ _); destruct Hplaced as [Hp Hs];
    rewrite ?Hp, ?Hs.
  - now apply sublist_inserts_r.
  - now apply sublist_app.
  - now apply sublist_app.
  - now apply sublist_inserts_r.
  - rewrite app_assoc. now apply Permutation_app_tail.
  - rewrite fmap_app. cbn [fmap list_fmap]. rewrite <- app_assoc.
    etrans; [apply Permutation_app_head, Permutation_app_comm|].
    rewrite app_assoc. now apply Permutation_app_tail.
Qed.

Lemma batch_loop_inv (m : Z) (budget : option Z) (diffs : list FileDiff) :
  batch_inv m diffs (batch_loop m budget diffs).
Proof.
  unfold batch_loop. apply (fold_left_invariant (batch_inv m)).
  - unfold batch_inv, batch_init.
    cbn [batches skipped current_batch current_tokens concat app fmap list_fmap].
    split; [|split; [|split; [|split; [|split; [|split]]]]];
      [constructor|constructor|reflexivity|constructor|reflexivity|now left
      |constructor].
  - intros done a s. apply batch_step_inv.
Qed.

Lemma batch_diffs_final (m : Z) (budget : option Z) (diffs : list FileDiff) :
  let st := batch_loop m budget diffs in
  concat (batch_diffs diffs m budget).1
  = concat (batches st) ++ current_batch st
  /\ (batch_diffs diffs m budget).2 = skipped st.
Proof.
  unfold batch_diffs. cbn [fst snd].
  destruct (nonempty (current_batch _)) eqn:E; (split; [|reflexivity]).
  - rewrite concat_app. cbn [concat]. now rewrite app_nil_r.
  - now rewrite (nonempty_false _ E), app_nil_r.
Qed.

Lemma batch_step_budget (m b : Z) (st : batch_state) (fd : FileDiff) :
  total_tokens st <= Z.max 0 b ->
  total_tokens (batch_step m (Some b) st fd) <= Z.max 0 b.
Proof.
  intros H. unfold batch_step, over_budget.
  destruct (b <? total_tokens st + estimate_tokens (diff fd)) eqn:E; [exact H|].
  apply Z.ltb_ge in E.
  destruct (m <? estimate_tokens (diff fd)).
  - destruct (nonempty (current_batch st)); cbn [total_tokens]; lia.
  - destruct (m <? current_tokens st + estimate_tokens (diff fd));
      cbn [total_tokens]; lia.
Qed.

Lemma batch_loop_unlimited (m : Z) (diffs : list FileDiff) :
  let st := batch_loop m None diffs in
  concat (batches st) ++ current_batch st = diffs /\ skipped st = [].
Proof.
  unfold batch_loop.
  apply (fold_left_invariant
           (fun done st => concat (batches st) ++ current_batch st = done
                           /\ skipped st = [])).
  - now split.
  - intros done fd st [Hp Hs].
    pose proof (batch_step_placed m None st fd) as H. cbv zeta in H.
    cbn [over_budget] in H. destruct H as [-> ->]. now rewrite Hp, Hs.
Qed.

(** The diffs in the batches and the skipped paths are as many as the
    diffs. *)
Lemma batch_diffs_length (m : Z) (budget : option Z) (diffs : list FileDiff) :
  llen (concat (batch_diffs diffs m budget).1)
  + llen (batch_diffs diffs m budget).2
  = llen diffs.
Proof.
  destruct (batch_diffs_final m budget diffs) as [-> ->].
  destruct (batch_loop_inv m budget diffs) as (_ & _ & Hperm & _).
  apply Permutation_length in Hperm.
  rewrite length_app, !length_fmap in Hperm. unfold llen. lia.
Qed.

Lemma batch_diffs_within_budget (m b : Z) (diffs : list FileDiff) :
  placed_tokens (batch_diffs diffs m (Some b)).1 <= Z.max 0 b.
Proof.
  unfold placed_tokens.
  destruct (batch_diffs_final m (Some b) diffs) as [-> _].
  pose proof (batch_loop_total m (Some b) diffs) as Ht. cbv zeta in Ht.
  unfold placed_tokens in Ht. rewrite concat_app in Ht. cbn [concat] in Ht.
  rewrite app_nil_r in Ht. rewrite <- Ht.
  unfold batch_loop.
  apply (fold_left_invariant (fun _ st => total_tokens st <= Z.max 0 b)).
  - cbn. lia.
  - intros _ fd st. apply batch_step_budget.
Qed.

Lemma batch_diffs_unlimited (m : Z) (diffs : list FileDiff) :
  concat (batch_diffs diffs m None).1 = diffs
  /\ (batch_diffs diffs m None).2 = [].
Proof.
  destruct (batch_diffs_final m None diffs) as [-> ->].
  apply batch_loop_unlimited.
Qed.

End batches.

(** X4: [batch_diffs] splits its input: the diffs of the batches, read
    batch after batch, are diffs of the input in the order of the input;
    the skipped paths are paths of the input in that order; every diff of
    the input is in a batch or has its path among the skipped ones, and
    none is in both; and no batch is empty. *)
Theorem batch_diffs_partitions_its_input (diffs : list FileDiff) (m : Z)
    (budget : option Z) :
  let r := batcher.batch_diffs diffs m budget in
  concat r.1 `sublist_of` diffs
  /\ r.2 `sublist_of` path <$> diffs
  /\ (path <$> concat r.1) ++ r.2 ≡ₚ path <$> diffs
  /\ llen (concat r.1) + llen r.2 = llen diffs
  /\ Forall (fun b => b <> []) r.1.
Proof.
  intros r. subst r.
  destruct (batch_diffs_final m budget diffs) as [Hc Hs].
  destruct (batch_loop_inv m budget diffs) as (Hsub & Hsk & Hperm & Hne & _).
  rewrite Hc, Hs.
  split; [exact Hsub|]. split; [exact Hsk|]. split; [exact Hperm|]. split.
  - rewrite <- Hc, <- Hs. apply batch_diffs_length.
  - unfold batcher.batch_diffs. cbn [fst].
    destruct (batcher.nonempty _) eqn:E; [|exact Hne].
    apply Forall_app. split; [exact Hne|].
    apply Forall_singleton. now apply nonempty_true.
Qed.

(** X5: every batch of [batch_diffs] has at most [max_tokens_per_batch]
    estimated tokens, unless it is a single diff that is larger than that
    on its own. *)
Theorem batch_diffs_batches_fit (diffs : list FileDiff) (m : Z)
    (budget : option Z) :
  Forall (fun b => batch_tokens b <= m
                   \/ exists fd, b = [fd]
                                 /\ m < batcher.estimate_tokens (diff fd))
         (batcher.batch_diffs diffs m budget).1.
Proof.
  destruct (batch_loop_inv m budget diffs) as (_ & _ & _ & _ & _ & Hfit & Hbs).
  unfold batcher.batch_diffs. cbn [fst].
  destruct (batcher.nonempty _) eqn:E; [|exact Hbs].
  apply Forall_app. split; [exact Hbs|].
  apply Forall_singleton. left. apply nonempty_true in E.
  destruct Hfit as [Hfit|Hfit]; [contradiction|exact Hfit].
Qed.

(** X6: with a budget, the estimated tokens of all the batches together
    stay within it (within zero for a negative budget); without one,
    nothing is skipped and the batches hold the whole input in its
    order. *)
Theorem batch_diffs_respects_budget (diffs : list FileDiff) (m b : Z) :
  placed_tokens (batcher.batch_diffs diffs m (Some b)).1 <= Z.max 0 b
  /\ concat (batcher.batch_diffs diffs m None).1 = diffs
  /\ (batcher.batch_diffs diffs m None).2 = [].
Proof.
  split; [apply batch_diffs_within_budget|apply batch_diffs_unlimited].
Qed.

(** ** Similarity of the representatives *)

Section similarity.
Context {vec : Type} `{!Numpy vec} `{!Encoder vec}.
Context (diffs : list FileDiff) (threshold : Q).

Local Abbreviation all_embeddings := (embedder.embed_texts (map diff diffs)).

Lemma dict_set_elem {V} (k : string) (v : V) (d : list (string * V))
    (x : string * V) :
  x ∈ dict_set k v d -> x = (k, v) \/ x ∈ d.
Proof.
  induction d as [|[k' v'] d IH]; cbn [dict_set].
  - intros ->%list_elem_of_singleton. now left.
  - destruct (String.eqb k' k).
    + intros [->|Hx]%elem_of_cons; [now left|right; now right].
    + intros [->|Hx]%elem_of_cons; [right; left|].
      destruct (IH Hx) as [->|Hd]; [now left|right; now right].
Qed.

(** The inner loop for the representative at [i] returns; it keeps what
    was assigned, assigns every later diff similar to the representative,
    and assigns and collects nothing else. *)
Lemma inner_loop_similar (i : nat) (fdi : FileDiff) (A0 : gset nat) :
  diffs !! i = Some fdi ->
  exists A dups,
    for_loop (range (i + 1) (length diffs)) (A0, [])
             (dedup.inner_step diffs all_embeddings threshold i)
    = Returns (A, dups)
    /\ A0 ⊆ A
    /\ (forall b fdb, (i < b)%nat -> diffs !! b = Some fdb ->
          similar threshold fdi fdb -> b ∈ A)
    /\ (forall b, b ∈ A ->
          b ∈ A0 \/ exists fdb, diffs !! b = Some fdb /\ similar threshold fdi fdb)
    /\ (forall d, d ∈ dups ->
          exists fd, fd ∈ diffs /\ path fd = d /\ similar threshold fdi fd).
Proof.
  intros Hi.
  destruct (for_loop_invariant
    (fun k (st : gset nat * list string) =>
       A0 ⊆ st.1
       /\ (forall b fdb, (i < b)%nat -> (b < i + 1 + k)%nat ->
             diffs !! b = Some fdb -> similar threshold fdi fdb -> b ∈ st.1)
       /\ (forall b, b ∈ st.1 ->
             b ∈ A0 \/ exists fdb, diffs !! b = Some fdb
                                   /\ similar threshold fdi fdb)
       /\ (forall d, d ∈ st.2 ->
             exists fd, fd ∈ diffs /\ path fd = d /\ similar threshold fdi fd))
    (range (i + 1) (length diffs))
    (dedup.inner_step diffs all_embeddings threshold i) (A0, []))
    as ([A dups] & Hret & Hsub & Hall & Honly & Hdups).
  - cbn [fst snd]. split; [done|]. split; [intros; lia|].
    split; [intros b Hb; now left|]. intros d []%elem_of_nil.
  - intros k j [A dups] Hk (Hsub & Hall & Honly & Hdups). cbn [fst snd] in *.
    apply range_lookup in Hk as [-> Hj].
    destruct (lookup_lt_is_Some_2 diffs _ Hj) as [fdj Hfdj].
    rewrite (inner_step_spec _ _ _ _ _ _ _ Hi Hfdj). cbn [fst snd].
    eexists. split; [reflexivity|].
    destruct (decide (_ ∈ A)) as [Hin|Hnin]; cbn [fst snd].
    { split; [exact Hsub|]. split; [|split; [exact Honly|exact Hdups]].
      intros b fdb Hb Hlt Hfdb Hs.
      destruct (decide (b = i + 1 + k)%nat) as [->|Hne]; [exact Hin|].
      apply (Hall b fdb); [lia|lia|exact Hfdb|exact Hs]. }
    destruct (Qle_bool _ _) eqn:Esim; cbn [fst snd].
    + apply Qle_bool_iff in Esim.
      split; [set_solver|]. split; [|split].
      * intros b fdb Hb Hlt Hfdb Hs.
        destruct (decide (b = i + 1 + k)%nat) as [->|Hne]; [set_solver|].
        apply elem_of_union. right.
        apply (Hall b fdb); [lia|lia|exact Hfdb|exact Hs].
      * intros b [Hb|Hb]%elem_of_union; [|now apply Honly].
        apply elem_of_singleton in Hb as ->. right. now exists fdj.
      * intros d [Hd|Hd]%elem_of_app; [now apply Hdups|].
        apply list_elem_of_singleton in Hd as ->. exists fdj.
        split; [now apply list_elem_of_lookup_2 in Hfdj|]. now split.
    + split; [exact Hsub|]. split; [|split; [exact Honly|exact Hdups]].
      intros b fdb Hb Hlt Hfdb Hs.
      destruct (decide (b = i + 1 + k)%nat) as [->|Hne].
      * rewrite Hfdj in Hfdb. injection Hfdb as <-.
        apply Qle_bool_iff in Hs. unfold similar in Hs. congruence.
      * apply (Hall b fdb); [lia|lia|exact Hfdb|exact Hs].
  - exists A, dups. split; [exact Hret|]. split; [exact Hsub|].
    split; [|split; [exact Honly|exact Hdups]].
    intros b fdb Hb Hfdb Hs. apply (Hall b fdb Hb); [|exact Hfdb|exact Hs].
    apply lookup_lt_Some in Hfdb. unfold range. rewrite length_seq. lia.
Qed.

Lemma outer_step_similarity (i k : nat) (st : dedup.dedup_state vec) :
  range 0 (length diffs) !! k = Some i ->
  outer_inv diffs k st /\ similarity_inv diffs threshold k st ->
  exists st', dedup.outer_step diffs all_embeddings threshold st i = Returns st'
              /\ outer_inv diffs (S k) st'
              /\ similarity_inv diffs threshold (S k) st'.
Proof.
  intros Hk [Hout (Hcov & Hreps & Hsep & Hgrp & Hemb)].
  destruct (outer_step_inv diffs threshold i k st Hk Hout) as (st' & Hret & Hout').
  exists st'. split; [exact Hret|]. split; [exact Hout'|].
  apply range_lookup in Hk as [-> Hi]. cbn [Nat.add] in *.
  destruct (lookup_lt_is_Some_2 diffs _ Hi) as [fdi Hfdi].
  destruct (decide (k ∈ dedup.assigned st)) as [Hin|Hnin].
  { unfold dedup.outer_step in Hret. rewrite decide_True in Hret by exact Hin.
    injection Hret as <-.
    split; [exact Hcov|]. split; [|now split; [|split]].
    intros rep Hrep. destruct (Hreps rep Hrep) as (a & Ha & H').
    exists a. split; [lia|exact H']. }
  destruct (inner_loop_similar k fdi ({[k]} ∪ dedup.assigned st) Hfdi)
    as (A & dups & Hloop & Hsub & Hall & Honly & Hdups).
  rewrite (outer_step_unfold _ _ _ _ _ Hfdi Hnin), Hloop in Hret.
  cbn [mbind outcome_bind fst snd] in Hret. injection Hret as <-.
  unfold similarity_inv.
  cbn [dedup.assigned dedup.st_unique dedup.unique_embeddings dedup.st_groups].
  split; [|split; [|split; [|split]]].
  - intros b Hb. destruct (Honly b Hb) as [[Hbk|Hb0]%elem_of_union|(fdb & Hfdb & Hs)].
    + apply elem_of_singleton in Hbk as ->. exists fdi, fdi.
      split; [exact Hfdi|]. split; [apply elem_of_app; right; left|now left].
    + destruct (Hcov b Hb0) as (fdb & rep & Hfdb & Hrep & Hor).
      exists fdb, rep. split; [exact Hfdb|].
      split; [apply elem_of_app; now left|exact Hor].
    + exists fdb, fdi. split; [exact Hfdb|].
      split; [apply elem_of_app; right; left|now right].
  - intros rep [Hrep|Hrep]%elem_of_app.
    + destruct (Hreps rep Hrep) as (a & Hak & Ha & Hlater). exists a.
      split; [lia|]. split; [exact Ha|]. intros b fdb Hb Hfdb Hs.
      apply Hsub, elem_of_union. right. exact (Hlater b fdb Hb Hfdb Hs).
    + apply list_elem_of_singleton in Hrep as ->. exists k.
      split; [lia|]. split; [exact Hfdi|]. exact Hall.
  - intros p q up uq Hpq Hp Hq.
    destruct (decide (q < length (dedup.st_unique st))%nat) as [Hlt|Hge].
    + rewrite lookup_app_l in Hp, Hq by lia. exact (Hsep p q up uq Hpq Hp Hq).
    + rewrite lookup_app_l in Hp
        by (apply lookup_lt_Some in Hq; rewrite length_app in Hq; cbn in Hq; lia).
      rewrite lookup_app_r in Hq by lia.
      apply list_lookup_singleton_Some in Hq as [_ <-].
      intros Hs.
      destruct (Hreps up) as (a & Hak & Ha & Hlater);
        [now apply list_elem_of_lookup_2 in Hp|].
      apply Hnin. exact (Hlater k fdi Hak Hfdi Hs).
  - intros key ds d Hin Hd.
    assert (Hold : (key, ds) ∈ dedup.st_groups st ->
                   exists rep fd, rep ∈ dedup.st_unique st ++ [fdi]
                                  /\ path rep = key /\ fd ∈ diffs /\ path fd = d
                                  /\ similar threshold rep fd).
    { intros Hg. destruct (Hgrp key ds d Hg Hd) as (rep & fd & Hrep & H').
      exists rep, fd. split; [apply elem_of_app; now left|exact H']. }
    destruct (batcher.nonempty dups); [|now apply Hold].
    apply dict_set_elem in Hin as [[= -> ->]|Hg]; [|now apply Hold].
    destruct (Hdups d Hd) as (fd & Hfd & Hpath & Hs).
    exists fdi, fd. split; [apply elem_of_app; right; left|]. now repeat split.
  - rewrite Hemb, map_app. reflexivity.
Qed.

(** The outer loop returns in a state that has every index assigned
    and keeps the similarity invariant. *)
Lemma outer_loop_similarity :
  exists st,
    for_loop (range 0 (length diffs))
             {| dedup.assigned := ∅; dedup.st_unique := [];
                dedup.unique_embeddings := []; dedup.st_groups := [] |}
             (dedup.outer_step diffs all_embeddings threshold)
    = Returns st
    /\ (forall x, (x < length diffs)%nat -> x ∈ dedup.assigned st)
    /\ similarity_inv diffs threshold (length diffs) st.
Proof.
  destruct (for_loop_invariant
              (fun k st => outer_inv diffs k st
                           /\ similarity_inv diffs threshold k st)
              (range 0 (length diffs))
              (dedup.outer_step diffs all_embeddings threshold)
              {| dedup.assigned := ∅; dedup.st_unique := [];
                 dedup.unique_embeddings := []; dedup.st_groups := [] |})
    as (st & Hret & Hout & Hsim).
  - split.
    + split; [set_solver|]. split; [intros x Hx; lia|].
      split; [cbn; rewrite take_0; constructor|]. split; [reflexivity|].
      intros _. cbn. rewrite elements_empty. split; [reflexivity | set_solver].
    + unfold similarity_inv.
      cbn [dedup.assigned dedup.st_unique dedup.unique_embeddings
           dedup.st_groups].
      split; [set_solver|]. split; [intros rep []%elem_of_nil|].
      split; [intros p q up uq _ Hp; now rewrite lookup_nil in Hp|].
      split; [intros k ds d []%elem_of_nil|reflexivity].
  - intros k i st Hk Hinv. exact (outer_step_similarity i k st Hk Hinv).
  - exists st. split; [exact Hret|].
    unfold range in *. rewrite length_seq, Nat.sub_0_r in *.
    split; [|exact Hsim]. now destruct Hout as (_ & Hall & _).
Qed.

End similarity.

(** What [deduplicate] returns, in terms of similarity. *)
Lemma deduplicate_similarity {vec : Type} `{!Numpy vec} `{!Encoder vec}
    (diffs : list FileDiff) (threshold : Q) :
  exists r,
    dedup.deduplicate diffs threshold = Returns r
    /\ (forall fd, fd ∈ diffs ->
          exists rep, rep ∈ dedup.unique r
                      /\ (rep = fd \/ similar threshold rep fd))
    /\ (forall p q up uq, (p < q)%nat ->
          dedup.unique r !! p = Some up -> dedup.unique r !! q = Some uq ->
          ~ similar threshold up uq)
    /\ (forall k ds d, (k, ds) ∈ dedup.groups r -> d ∈ ds ->
          exists rep fd, rep ∈ dedup.unique r /\ path rep = k
                         /\ fd ∈ diffs /\ path fd = d
                         /\ similar threshold rep fd)
    /\ dedup.embeddings r = map (fun fd => encode (diff fd)) (dedup.unique r).
Proof.
  destruct diffs as [|fd1 [|fd2 rest]] eqn:Ed.
  - eexists. split; [reflexivity|]. cbn [dedup.DedupResult_default dedup.unique
      dedup.groups dedup.embeddings].
    split; [intros fd []%elem_of_nil|].
    split; [intros p q up uq _ Hp; now rewrite lookup_nil in Hp|].
    split; [intros k ds d []%elem_of_nil|reflexivity].
  - eexists. split; [reflexivity|].
    cbn [dedup.unique dedup.groups dedup.embeddings].
    split; [intros fd ->%list_elem_of_singleton; exists fd1;
            split; [left|now left]|].
    split.
    { intros p q up uq Hpq Hp Hq. apply lookup_lt_Some in Hq. cbn in Hq. lia. }
    split; [intros k ds d []%elem_of_nil|reflexivity].
  - rewrite <- Ed.
    destruct (outer_loop_similarity diffs threshold)
      as (st & Hret & Hall & Hcov & _ & Hsep & Hgrp & Hemb).
    exists {| dedup.unique := dedup.st_unique st; dedup.groups := dedup.st_groups st;
              dedup.embeddings := dedup.unique_embeddings st |}.
    split.
    { rewrite Ed. unfold dedup.deduplicate. rewrite <- Ed. now rewrite Hret. }
    cbn [dedup.unique dedup.groups dedup.embeddings].
    split; [|now split; [|split]].
    intros fd [b Hb]%list_elem_of_lookup_1.
    destruct (Hcov b) as (fdb & rep & Hfdb & Hrep & Hor).
    { apply Hall. now apply lookup_lt_Some in Hb. }
    rewrite Hb in Hfdb. injection Hfdb as <-. now exists rep.
Qed.

(** X7: every diff is a representative or is as similar to a
    representative as the threshold asks: [deduplicate] returns, and
    every diff of the input is in [unique] or has a cosine similarity of
    at least the threshold with a diff of [unique]. *)
Theorem every_diff_is_near_a_representative {vec : Type} `{!Numpy vec}
    `{!Encoder vec} (diffs : list FileDiff) (threshold : Q) :
  exists r,
    dedup.deduplicate diffs threshold = Returns r
    /\ forall fd, fd ∈ diffs ->
         fd ∈ dedup.unique r
         \/ exists rep,
              rep ∈ dedup.unique r
              /\ (threshold <= cosine (encode (diff rep)) (encode (diff fd)))%Q.
Proof.
  destruct (deduplicate_similarity diffs threshold) as (r & Hret & Hcov & _).
  exists r. split; [exact Hret|]. intros fd Hfd.
  destruct (Hcov fd Hfd) as (rep & Hrep & [->|Hs]); [now left|right].
  now exists rep.
Qed.

(** X8: no representative is a near-duplicate of an earlier one:
    [deduplicate] returns, and the cosine similarity of a diff of
    [unique] with a diff later in [unique] is below the threshold. *)
Theorem representatives_are_not_similar {vec : Type} `{!Numpy vec}
    `{!Encoder vec} (diffs : list FileDiff) (threshold : Q) :
  exists r,
    dedup.deduplicate diffs threshold = Returns r
    /\ forall p q up uq, (p < q)%nat ->
         dedup.unique r !! p = Some up -> dedup.unique r !! q = Some uq ->
         (cosine (encode (diff up)) (encode (diff uq)) < threshold)%Q.
Proof.
  destruct (deduplicate_similarity diffs threshold) as (r & Hret & _ & Hsep & _).
  exists r. split; [exact Hret|]. intros p q up uq Hpq Hp Hq.
  apply Qnot_le_lt. exact (Hsep p q up uq Hpq Hp Hq).
Qed.

(** X9: a group holds near-duplicates of its representative only:
    [deduplicate] returns, and every path listed in a group is the path
    of a diff of the input whose cosine similarity with a representative
    that has the key of the group as its path is at least the
    threshold. *)
Theorem grouped_paths_are_near_their_representative {vec : Type}
    `{!Numpy vec} `{!Encoder vec} (diffs : list FileDiff) (threshold : Q) :
  exists r,
    dedup.deduplicate diffs threshold = Returns r
    /\ forall k ds d, (k, ds) ∈ dedup.groups r -> d ∈ ds ->
         exists rep fd,
           rep ∈ dedup.unique r /\ path rep = k
           /\ fd ∈ diffs /\ path fd = d
           /\ (threshold <= cosine (encode (diff rep)) (encode (diff fd)))%Q.
Proof.
  destruct (deduplicate_similarity diffs threshold)
    as (r & Hret & _ & _ & Hgrp & _).
  exists r. split; [exact Hret|exact Hgrp].
Qed.

(** X10: the embeddings of a [DedupResult] are those of its
    representatives: [deduplicate] returns, and [embeddings] holds, at
    each position, the embedding of the text of the diff at that position
    of [unique]. *)
Theorem embeddings_are_those_of_the_representatives {vec : Type}
    `{!Numpy vec} `{!Encoder vec} (diffs : list FileDiff) (threshold : Q) :
  exists r,
    dedup.deduplicate diffs threshold = Returns r
    /\ dedup.embeddings r
       = map (fun fd => embedder.embed_text (diff fd)) (dedup.unique r)
    /\ forall p up, dedup.unique r !! p = Some up ->
         dedup.embeddings r !! p = Some (embedder.embed_text (diff up)).
Proof.
  destruct (deduplicate_similarity diffs threshold)
    as (r & Hret & _ & _ & _ & Hemb).
  exists r. split; [exact Hret|]. split; [exact Hemb|].
  intros p up Hp. rewrite Hemb.
  change (map ?f ?l) with (f <$> l). now rewrite list_lookup_fmap, Hp.
Qed.

(** ** Cache payloads and queries *)

Section payloads.
Context {vec : Type} {codec : JsonCodec} {space : VectorIndex vec}.





Lemma collect_written (xs : list (Issue + json)) (acc : list Issue) :
  (forall item, inr item ∈ xs -> malformed item) ->
  for_loop (map payload_item xs) acc collect
  = Returns (acc ++ omap written_issue xs).
Proof.
  revert acc. induction xs as [|x xs IH]; intros acc Hbad;
    cbn [map for_loop omap]; [now rewrite app_nil_r|].
  assert (Hbad' : forall item, inr item ∈ xs -> malformed item)
    by (intros item Hin; apply Hbad; now right).
  destruct x as [i|item]; cbn [payload_item written_issue].
  - rewrite collect_issue. cbn [mbind outcome_bind].
    rewrite (IH _ Hbad'), <- app_assoc. reflexivity.
  - rewrite collect_skips by (apply Hbad; left).
    cbn [mbind outcome_bind]. exact (IH _ Hbad').
Qed.

Lemma nearest_spec (c : cache.collection vec) (e : vec) (d : Q)
    (m : cache.metadata) :
  cache.nearest c e = Some (d, m) ->
  exists x, x ∈ c
    /\ d = cosine_distance e (cache.entry_embedding x)
    /\ m = cache.entry_metadata x
    /\ forall y, y ∈ c -> (d <= cosine_distance e (cache.entry_embedding y))%Q.
Proof.
  revert d m. induction c as [|z c IH]; intros d m; cbn [cache.nearest];
    [discriminate|].
  destruct (cache.nearest c e) as [[d' m']|] eqn:En.
  - destruct (IH _ _ eq_refl) as (x & Hx & Hd & Hm & Hmin).
    unfold Qltb.
    destruct (Qle_bool (cosine_distance e (cache.entry_embedding z)) d') eqn:E;
      cbn [negb]; intros H; injection H as <- <-.
    + apply Qle_bool_iff in E. exists z.
      split; [left|]. split; [reflexivity|]. split; [reflexivity|].
      intros y [->|Hy]%elem_of_cons; [apply Qle_refl|].
      eapply Qle_trans; [exact E|]. now apply Hmin.
    + exists x. split; [now right|]. split; [exact Hd|]. split; [exact Hm|].
      intros y [->|Hy]%elem_of_cons; [|now apply Hmin].
      apply Qlt_le_weak, Qnot_le_lt. intros Hle.
      apply Qle_bool_iff in Hle. congruence.
  - destruct c as [|z' c]; [|cbn [cache.nearest] in En;
                              destruct (cache.nearest c e) as [[? ?]|];
                              [destruct (Qltb _ _)|]; discriminate En].
    intros H. injection H as <- <-. exists z.
    split; [left|]. split; [reflexivity|]. split; [reflexivity|].
    intros y ->%list_elem_of_singleton. apply Qle_refl.
Qed.

End payloads.


(** X13: malformed items do not disturb their neighbours: from a payload
    whose items were written for issues or are malformed objects, the
    deserialiser returns the issues, in the order of the payload. *)
Theorem deserialize_keeps_the_written_issues {codec : JsonCodec} (raw : string)
    (xs : list (Issue + json)) :
  json_loads raw = Some (JList (map payload_item xs)) ->
  (forall item, inr item ∈ xs -> malformed item) ->
  cache._deserialize_issues raw = Returns (omap written_issue xs).
Proof.
  intros Hraw Hbad. unfold cache._deserialize_issues. rewrite Hraw.
  cbn [cache.iterate mbind outcome_bind].
  exact (collect_written xs [] Hbad).
Qed.

Lemma deserialize_keeps_the_written_issues_witness :
  let a := {| file := JStr "a.py"; line := JInt 3; severity := WARNING;
              category := SECURITY; message := JStr "m"; suggestion := JStr "" |} in
  let b := {| file := JStr "b.py"; line := JNull; severity := INFO;
              category := CODE_SMELL; message := JStr "n"; suggestion := JStr "s" |} in
  let bad := JDict [("file", JStr "c.py"); ("severity", JStr "fatal")] in
  cache._deserialize_issues
    (json_dumps (JList [cache.issue_to_dict a; bad; cache.issue_to_dict b]))
  = Returns [a; b].
Proof.
  intros a b bad.
  apply (deserialize_keeps_the_written_issues _ [inl a; inr bad; inl b]).
  - vm_compute. reflexivity.
  - intros item Hin. apply list_elem_of_In in Hin. cbn [In] in Hin.
    destruct Hin as [H|[H|[H|[]]]]; try discriminate H. injection H as <-.
    exists [("file", JStr "c.py"); ("severity", JStr "fatal")].
    split; [reflexivity|]. right. left. reflexivity.
Defined.

(** X11: a query answers with the record nearest to the embedding, and
    only when that record is within the threshold: a hit returns the
    issues read from a stored record that no other record is closer than
    and whose similarity is at least the threshold; a miss means that no
    stored record reaches the threshold. *)
Theorem query_answers_from_the_nearest_record {vec : Type} {codec : JsonCodec}
    {space : VectorIndex vec} (c : cache.collection vec) (e : vec)
    (threshold : Q) :
  (forall l,
     cache.query c e threshold = Returns (Some l) ->
     exists x,
       x ∈ c
       /\ (threshold <= 1 - cosine_distance e (cache.entry_embedding x))%Q
       /\ (forall y, y ∈ c ->
             (cosine_distance e (cache.entry_embedding x)
              <= cosine_distance e (cache.entry_embedding y))%Q)
       /\ cache._deserialize_issues
            (default "[]" (cache.meta_issues (cache.entry_metadata x)))
          = Returns l)
  /\ (cache.query c e threshold = Returns None ->
      forall y, y ∈ c ->
        (1 - cosine_distance e (cache.entry_embedding y) < threshold)%Q).
Proof.
  unfold cache.query.
  destruct (cache.count c =? 0) eqn:Ec.
  { apply Z.eqb_eq in Ec. unfold cache.count, llen in Ec.
    destruct c; [|cbn [length] in Ec; lia].
    split; [discriminate|]. intros _ y []%elem_of_nil. }
  destruct (cache.nearest c e) as [[d m]|] eqn:En.
  - destruct (nearest_spec c e d m En) as (x & Hx & -> & -> & Hmin).
    unfold Qltb.
    destruct (Qle_bool threshold _) eqn:Et; cbn [negb].
    + apply Qle_bool_iff in Et. split.
      * intros l Hl. exists x. split; [exact Hx|]. split; [exact Et|].
        split; [exact Hmin|].
        destruct (cache._deserialize_issues _) as [l'| |]; try discriminate.
        cbn [mbind outcome_bind] in Hl. congruence.
      * destruct (cache._deserialize_issues _); discriminate.
    + split; [discriminate|]. intros _ y Hy.
      assert (Hlt : (1 - cosine_distance e (cache.entry_embedding x) < threshold)%Q).
      { apply Qnot_le_lt. intros Hle. apply Qle_bool_iff in Hle. congruence. }
      eapply Qle_lt_trans; [|exact Hlt].
      specialize (Hmin y Hy).
      unfold Qminus. apply Qplus_le_r, Qopp_le_compat. exact Hmin.
  - destruct c; [|cbn [cache.nearest] in En;
                  destruct (cache.nearest c e) as [[? ?]|];
                  [destruct (Qltb _ _)|]; discriminate En].
    split; [discriminate|]. intros _ y []%elem_of_nil.
Qed.

(** ** Outcomes of a run *)

Section run_outcomes.
Context {vec : Type} {np : Numpy vec} {enc : Encoder vec} {codec : JsonCodec}
        {space : VectorIndex vec} {backend : Adapter}.

Lemma filter_split_length {B} (f : B -> bool) (l : list B) :
  llen (List.filter f l) + llen (List.filter (fun x => negb (f x)) l) = llen l.
Proof.
  unfold llen. induction l as [|x l IH]; [reflexivity|].
  cbn [List.filter]. destruct (f x); cbn [negb length]; lia.
Qed.


Lemma check_step_unfold (c : cache.collection vec) (threshold : Q)
    (st0 : pipeline.check_state vec) (x : FileDiff * vec) :
  pipeline.check_step c threshold st0 x
  = (found ← cache.query c x.2 threshold;
     Returns
       match found with
       | Some l =>
           {| pipeline.needs_review := pipeline.needs_review st0;
              pipeline.needs_review_embeddings :=
                pipeline.needs_review_embeddings st0;
              pipeline.cached_issues := pipeline.cached_issues st0 ++ l;
              pipeline.hits := pipeline.hits st0 + 1;
              pipeline.cached := pipeline.cached st0 + 1 |}
       | None =>
           {| pipeline.needs_review := pipeline.needs_review st0 ++ [x.1];
              pipeline.needs_review_embeddings :=
                pipeline.needs_review_embeddings st0 ++ [x.2];
              pipeline.cached_issues := pipeline.cached_issues st0;
              pipeline.hits := pipeline.hits st0;
              pipeline.cached := pipeline.cached st0 |}
       end).
Proof.
  unfold pipeline.check_step.
  destruct (cache.query c x.2 threshold) as [[l|]| |]; reflexivity.
Qed.

(** The counters of the cache check, when it returns: every pair is a
    hit or is sent to review, and the two counters move together. *)
Lemma check_loop_counts (c : cache.collection vec) (threshold : Q)
    (pairs : list (FileDiff * vec)) (st0 st : pipeline.check_state vec) :
  for_loop pairs st0 (pipeline.check_step c threshold) = Returns st ->
  pipeline.hits st
  = pipeline.hits st0
    + llen (List.filter (fun x => negb (misses c threshold x)) pairs)
  /\ pipeline.cached st - pipeline.cached st0
     = pipeline.hits st - pipeline.hits st0.
Proof.
  revert st0. induction pairs as [|x pairs IH]; intros st0; cbn [for_loop].
  - intros [= <-]. unfold llen. cbn. lia.
  - rewrite check_step_unfold. cbn [List.filter]. unfold misses at 1.
    destruct (cache.query c x.2 threshold) as [[l|]|e|];
      cbn [mbind outcome_bind negb]; try discriminate;
      intros [H1 H2]%IH; cbn [pipeline.hits pipeline.cached] in H1, H2;
      unfold llen in *; cbn [length]; lia.
Qed.



End run_outcomes.

(** X14: every file of a run is accounted for: when a run returns, the
    number of files scanned and the number of paths listed as skipped
    add up to the number of diffs it was given.  [files_skipped] counts
    only the paths that the filter skipped, so it can be less than the
    length of [skipped_files]; and the token usage reported is always
    zero. *)
Theorem scanned_and_skipped_files_add_up {vec : Type} {np : Numpy vec}
    {enc : Encoder vec} {codec : JsonCodec} {space : VectorIndex vec}
    {backend : Adapter} (diffs : list FileDiff) (config : LocalDuckConfig)
    (c : cache.collection vec) :
  (0 < max_concurrent config -> cache_readable c ->
   exists r c', pipeline.run_pipeline diffs config c = Returns (r, c'))
  /\ forall r c',
       pipeline.run_pipeline diffs config c = Returns (r, c') ->
       files_scanned r + llen (skipped_files r) = llen diffs
       /\ files_skipped r = llen (filter.filter_diffs diffs).2
       /\ files_skipped r <= llen (skipped_files r)
       /\ 0 <= files_scanned r
       /\ token_usage r = 0.
Proof.
  split; [apply run_pipeline_total|].
  intros r c' Hrun.
  destruct (pipeline_stages_inv _ _ _ _ _ Hrun)
    as (dr & st & Hd & Hl & -> & _ & Hz & Hnr & _).
  cbn [files_scanned files_skipped skipped_files token_usage].
  pose proof (filter_diffs_length diffs) as Hflen.
  pose proof (batch_diffs_length batcher.DEFAULT_MAX_TOKENS_PER_BATCH
                (budget_of config) (pipeline.needs_review st)) as Hblen.
  fold (batched config st) in Hblen.
  destruct (deduplicate_returns (reviewable_of diffs) (cache_threshold config))
    as (dr' & Hd' & Hsub & _).
  rewrite Hd in Hd'. injection Hd' as <-.
  apply sublist_length in Hsub.
  assert (Hn : (length (pipeline.needs_review st) <= length (dedup.unique dr))%nat).
  { rewrite Hnr, length_fmap.
    etrans; [apply List.filter_length_le|].
    now rewrite <- (length_fmap fst), Hz. }
  pose proof (reviewable_of_length diffs) as Hrl.
  unfold llen in *. rewrite length_app.
  repeat split; lia.
Qed.

(** X15: every representative is answered by the cache or stored in it:
    when a run returns, [cache_hits] and [files_cached] are the same
    number, and that number and the number of records added to the
    cache add up to the number of representatives. *)
Theorem cache_hits_and_stores_add_up {vec : Type} {np : Numpy vec}
    {enc : Encoder vec} {codec : JsonCodec} {space : VectorIndex vec}
    {backend : Adapter} (diffs : list FileDiff) (config : LocalDuckConfig)
    (c : cache.collection vec) :
  (0 < max_concurrent config -> cache_readable c ->
   exists r c', pipeline.run_pipeline diffs config c = Returns (r, c'))
  /\ forall r c',
       pipeline.run_pipeline diffs config c = Returns (r, c') ->
       exists dr,
         dedup.deduplicate (reviewable_of diffs) (cache_threshold config)
         = Returns dr
         /\ cache_hits r = files_cached r
         /\ 0 <= cache_hits r
         /\ cache_hits r + (llen c' - llen c) = llen (dedup.unique dr).
Proof.
  split; [apply run_pipeline_total|].
  intros r c' Hrun.
  destruct (pipeline_stages_inv _ _ _ _ _ Hrun)
    as (dr & st & Hd & Hl & -> & -> & Hz & _).
  exists dr. split; [exact Hd|].
  cbn [cache_hits files_cached].
  destruct (check_loop_counts _ _ _ _ _ Hl) as [Hh Hc].
  cbn [pipeline.check_init pipeline.hits pipeline.cached] in Hh, Hc.
  pose proof (filter_split_length (misses c (cache_threshold config))
                (zip (dedup.unique dr) (dedup.embeddings dr))) as Hsplit.
  assert (Hlen : llen (zip (dedup.unique dr) (dedup.embeddings dr))
                 = llen (dedup.unique dr)).
  { unfold llen. now rewrite <- (length_fmap fst), Hz. }
  unfold llen in *. rewrite length_app, length_map.
  repeat split; lia.
Qed.

(** X16: a change set with nothing to review ends the run at once:
    when the filter skips every diff, the run returns an empty result
    that lists every path as skipped, whatever the configuration, and
    leaves the cache as it was. *)
Theorem nothing_reviewable_returns_at_once {vec : Type} {np : Numpy vec}
    {enc : Encoder vec} {codec : JsonCodec} {space : VectorIndex vec}
    {backend : Adapter} (diffs : list FileDiff) (config : LocalDuckConfig)
    (c : cache.collection vec) :
  Forall (fun fd => filter._should_skip (path fd) = true) diffs ->
  pipeline.run_pipeline diffs config c
  = Returns ({| issues := []; files_scanned := 0; files_skipped := llen diffs;
                files_cached := 0; files_deduped := 0; token_usage := 0;
                cache_hits := 0; skipped_files := map path diffs |}, c).
Proof.
  intros Hall. unfold pipeline.run_pipeline. rewrite filter_diffs_spec.
  assert (H : List.filter (fun fd => negb (filter._should_skip (path fd))) diffs
              = []
              /\ List.filter (fun fd => filter._should_skip (path fd)) diffs
                 = diffs).
  { induction Hall as [|fd l Hfd _ [IH1 IH2]]; [now split|].
    cbn [List.filter]. now rewrite Hfd, IH1, IH2. }
  destruct H as [H1 H2]. rewrite H1, H2. cbn [batcher.nonempty negb]. unfold llen.
  now rewrite length_map.
Qed.

Lemma nothing_reviewable_returns_at_once_witness :
  let diffs :=
    [ {| path := "assets/logo.PNG"; diff := "aaa"; is_new := true;
         is_deleted := false |};
      {| path := "web/yarn.lock"; diff := "bbb"; is_new := false;
         is_deleted := false |} ] in
  let config :=
    {| token_budget := 50000; cache_threshold := 92 # 100; max_concurrent := 0 |} in
  pipeline.run_pipeline (vec := standin.vector) diffs config []
  = Returns ({| issues := []; files_scanned := 0; files_skipped := 2;
                files_cached := 0; files_deduped := 0; token_usage := 0;
                cache_hits := 0;
                skipped_files := ["assets/logo.PNG"; "web/yarn.lock"] |}, []).
Proof.
  intros diffs config.
  apply (nothing_reviewable_returns_at_once (vec := standin.vector) diffs config []).
  repeat constructor.
Defined.


(** X18: how the token budget of the configuration is used: when a run
    returns, a budget of zero or less means no budget, nothing is
    dropped and every diff that passed the filter counts as scanned; a
    positive budget bounds the estimated tokens of the diffs sent to
    review in all batches together. *)
Theorem token_budget_bounds_the_review {vec : Type} {np : Numpy vec}
    {enc : Encoder vec} {codec : JsonCodec} {space : VectorIndex vec}
    {backend : Adapter} (diffs : list FileDiff) (config : LocalDuckConfig)
    (c : cache.collection vec) :
  (0 < max_concurrent config -> cache_readable c ->
   exists r c', pipeline.run_pipeline diffs config c = Returns (r, c'))
  /\ forall r c',
       pipeline.run_pipeline diffs config c = Returns (r, c') ->
       exists dr st,
         dedup.deduplicate (reviewable_of diffs) (cache_threshold config)
         = Returns dr
         /\ for_loop (zip (dedup.unique dr) (dedup.embeddings dr))
                     pipeline.check_init
                     (pipeline.check_step c (cache_threshold config))
            = Returns st
         /\ (token_budget config <= 0 ->
             concat (batched config st).1 = pipeline.needs_review st
             /\ skipped_files r = (filter.filter_diffs diffs).2
             /\ files_scanned r = llen (filter.filter_diffs diffs).1)
         /\ (0 < token_budget config ->
             placed_tokens (batched config st).1 <= token_budget config).
Proof.
  split; [apply run_pipeline_total|].
  intros r c' Hrun.
  destruct (pipeline_stages_inv _ _ _ _ _ Hrun)
    as (dr & st & Hd & Hl & -> & _).
  exists dr, st. split; [exact Hd|]. split; [exact Hl|].
  cbn [skipped_files files_scanned]. unfold batched, budget_of.
  pose proof (batch_diffs_within_budget batcher.DEFAULT_MAX_TOKENS_PER_BATCH
                (token_budget config) (pipeline.needs_review st)) as Hb.
  destruct (batch_diffs_unlimited batcher.DEFAULT_MAX_TOKENS_PER_BATCH
              (pipeline.needs_review st)) as [Hall Hnone].
  split.
  - intros Hle. replace (0 <? token_budget config) with false
      by (symmetry; apply Z.ltb_ge; lia).
    rewrite Hnone, app_nil_r. split; [exact Hall|]. split; [reflexivity|].
    rewrite reviewable_of_length. unfold llen. cbn [length]. lia.
  - intros Hpos. replace (0 <? token_budget config) with true
      by (symmetry; apply Z.ltb_lt; lia).
    lia.
Qed.

(** ** The blocking decision and the severity counts *)

Section blocking.

Lemma existsb_severity (s : Severity) (l : list Issue) :
  existsb (fun i => Severity_eqb (severity i) s) l = true
  <-> exists i, i ∈ l /\ severity i = s.
Proof.
  rewrite existsb_exists. split; intros (i & Hi & H); exists i.
  - split; [now apply list_elem_of_In|].
    now destruct (severity i), s.
  - split; [now apply list_elem_of_In|]. rewrite H. now destruct s.
Qed.

Lemma severity_counts_loop (l : list Issue) (a b c : Z) :
  fold_left (fun counts issue =>
               let k := severity_value (severity issue) in
               dict_set k (default 0 (dict_get k counts) + 1) counts)
            l [("critical", a); ("warning", b); ("info", c)]
  = [ ("critical", a + count_severity CRITICAL l);
      ("warning", b + count_severity WARNING l);
      ("info", c + count_severity INFO l) ].
Proof.
  unfold count_severity, llen. revert a b c.
  induction l as [|i l IH]; intros a b c; cbn [fold_left List.filter length].
  - now rewrite !Z.add_0_r.
  - destruct (severity i);
      cbn [severity_value dict_get dict_set String.eqb Ascii.eqb Bool.eqb
           default from_option id Severity_eqb length];
      rewrite IH; repeat (f_equal; try lia).
Qed.

Lemma count_severity_total (l : list Issue) :
  count_severity CRITICAL l + count_severity WARNING l + count_severity INFO l
  = llen l.
Proof.
  unfold count_severity, llen.
  induction l as [|i l IH]; [reflexivity|].
  cbn [List.filter length]. destruct (severity i); cbn; lia.
Qed.

Lemma count_severity_positive (s : Severity) (l : list Issue) :
  (0 <? count_severity s l)
  = existsb (fun i => Severity_eqb (severity i) s) l.
Proof.
  unfold count_severity, llen.
  induction l as [|i l IH]; [reflexivity|].
  cbn [List.filter existsb].
  destruct (Severity_eqb (severity i) s); cbn [orb length]; [|exact IH].
  apply Z.ltb_lt. lia.
Qed.

(** Every issue after the fan-out has the severity of an issue from
    before it, and the issues from before it are still there. *)
Lemma propagate_severities (groups : list (string * list string))
    (all_issues : list Issue) :
  (forall i, i ∈ all_issues -> i ∈ pipeline.propagate groups all_issues)
  /\ (forall i, i ∈ pipeline.propagate groups all_issues ->
        exists j, j ∈ all_issues /\ severity i = severity j).
Proof.
  unfold pipeline.propagate. revert all_issues.
  induction groups as [|g groups IH]; intros l; cbn [fold_left].
  - split; [auto|]. intros i Hi. now exists i.
  - destruct (IH (pipeline.propagate_group l g)) as [Hin Hsev].
    rewrite propagate_group_clones in *. split.
    + intros i Hi. apply Hin, elem_of_app. now left.
    + intros i Hi. destruct (Hsev i Hi) as (j & Hj & ->).
      apply elem_of_app in Hj as [Hj|Hj]; [now exists j|].
      unfold clones_of in Hj.
      apply list_elem_of_In, in_flat_map in Hj as (d & _ & Hj).
      apply in_map_iff in Hj as (k & <- & Hk).
      apply filter_In in Hk as [Hk _]. exists k.
      split; [now apply list_elem_of_In|reflexivity].
Qed.

End blocking.

(** X19: the blocking levels are ordered: [none] never blocks, a result
    that blocks on [critical] blocks on [warning], one that blocks on
    [warning] blocks on [all]; [all] blocks exactly when there is an
    issue, [warning] exactly when there is one that is not [info]; and a
    level that is none of the four gives [None]. *)
Theorem should_block_levels_are_ordered (r : ScanResult) :
  should_block r "none" = Some false
  /\ (should_block r "critical" = Some true
      <-> exists i, i ∈ issues r /\ severity i = CRITICAL)
  /\ (should_block r "warning" = Some true
      <-> exists i, i ∈ issues r /\ severity i <> INFO)
  /\ (should_block r "all" = Some true <-> issues r <> [])
  /\ (should_block r "critical" = Some true ->
      should_block r "warning" = Some true)
  /\ (should_block r "warning" = Some true ->
      should_block r "all" = Some true)
  /\ (forall block_on,
        block_on ∉ ["none"; "critical"; "warning"; "all"] ->
        should_block r block_on = None).
Proof.
  assert (Hc : should_block r "critical" = Some true
               <-> exists i, i ∈ issues r /\ severity i = CRITICAL).
  { unfold should_block, has_critical. cbn [String.eqb Ascii.eqb Bool.eqb].
    rewrite <- existsb_severity. split; [now intros [= ->]|now intros ->]. }
  assert (Hw : should_block r "warning" = Some true
               <-> exists i, i ∈ issues r /\ severity i <> INFO).
  { unfold should_block, has_critical, has_warning.
    cbn [String.eqb Ascii.eqb Bool.eqb]. split.
    - intros [= H]. apply orb_true_iff in H as [H|H];
        apply existsb_severity in H as (i & Hi & Hs); exists i;
        (split; [exact Hi|]); rewrite Hs; discriminate.
    - intros (i & Hi & Hs). f_equal. apply orb_true_iff.
      destruct (severity i) eqn:E; [left|right|contradiction];
        apply existsb_severity; now exists i. }
  assert (Ha : should_block r "all" = Some true <-> issues r <> []).
  { unfold should_block, llen. cbn [String.eqb Ascii.eqb Bool.eqb].
    destruct (issues r); cbn [length]; split; try discriminate; easy. }
  split; [reflexivity|]. split; [exact Hc|]. split; [exact Hw|].
  split; [exact Ha|]. split; [|split].
  - rewrite Hc, Hw. intros (i & Hi & Hs). exists i.
    split; [exact Hi|]. rewrite Hs. discriminate.
  - rewrite Hw, Ha. intros (i & Hi & _) E. rewrite E in Hi.
    now apply elem_of_nil in Hi.
  - intros b Hb. unfold should_block.
    destruct (String.eqb_spec b "none") as [->|_];
      [exfalso; apply Hb; repeat constructor|].
    destruct (String.eqb_spec b "critical") as [->|_];
      [exfalso; apply Hb; repeat constructor|].
    destruct (String.eqb_spec b "warning") as [->|_];
      [exfalso; apply Hb; repeat constructor|].
    destruct (String.eqb_spec b "all") as [->|_];
      [exfalso; apply Hb; repeat constructor|].
    reflexivity.
Qed.

(** X20: fanning the findings out to the duplicates never changes
    whether a result blocks: at every level, the result with the issues
    after [propagate] blocks exactly when the one with the issues before
    it does. *)
Theorem propagate_keeps_the_blocking_decision (r : ScanResult)
    (groups : list (string * list string)) (all_issues : list Issue)
    (block_on : string) :
  should_block (with_issues r (pipeline.propagate groups all_issues)) block_on
  = should_block (with_issues r all_issues) block_on.
Proof.
  destruct (propagate_severities groups all_issues) as [Hin Hsev].
  assert (Hex : forall s,
             existsb (fun i => Severity_eqb (severity i) s)
                     (pipeline.propagate groups all_issues)
             = existsb (fun i => Severity_eqb (severity i) s) all_issues).
  { intros s. apply eq_true_iff_eq. rewrite !existsb_severity. split.
    - intros (i & Hi & Hs). destruct (Hsev i Hi) as (j & Hj & E).
      exists j. split; [exact Hj|congruence].
    - intros (i & Hi & Hs). exists i. split; [now apply Hin|exact Hs]. }
  unfold should_block, has_critical, has_warning.
  cbn [with_issues issues]. rewrite !Hex.
  replace (0 <? llen (pipeline.propagate groups all_issues))
    with (0 <? llen all_issues); [reflexivity|].
  unfold llen. destruct all_issues as [|i l].
  - destruct (pipeline.propagate groups []) as [|k p]; [reflexivity|].
    destruct (Hsev k) as (j & Hj & _); [left|]. now apply elem_of_nil in Hj.
  - destruct (propagate_appends groups (i :: l)) as (clones & -> & _).
    cbn [app length]. symmetry.
    transitivity true; [|symmetry]; apply Z.ltb_lt; lia.
Qed.

(** X21: [_severity_counts] has the three levels as keys, in the order
    critical, warning, info, each with the number of issues of that
    level; the three numbers add up to the number of issues, and the
    first is positive exactly when the result has a critical issue. *)
Theorem severity_counts_count_every_issue (r : ScanResult) :
  reports._severity_counts (issues r)
  = [ ("critical", count_severity CRITICAL (issues r));
      ("warning", count_severity WARNING (issues r));
      ("info", count_severity INFO (issues r)) ]
  /\ zsum (dict_values (reports._severity_counts (issues r))) = llen (issues r)
  /\ (0 <? default 0 (dict_get "critical" (reports._severity_counts (issues r))))
     = has_critical r
  /\ (0 <? default 0 (dict_get "warning" (reports._severity_counts (issues r))))
     = has_warning r.
Proof.
  unfold reports._severity_counts. rewrite severity_counts_loop.
  rewrite !Z.add_0_l. split; [reflexivity|].
  cbn [dict_values map snd dict_get String.eqb Ascii.eqb Bool.eqb default
       from_option id].
  split; [|split].
  - rewrite <- count_severity_total. unfold zsum. cbn [fold_left]. lia.
  - apply count_severity_positive.
  - apply count_severity_positive.
Qed.

(** ** Replies of the review backend *)

Section stripping.
Import pytext.

Lemma lstrip_app (a b : string) :
  lstrip (a +:+ b) = if all_space a then lstrip b else lstrip a +:+ b.
Proof.
  induction a as [|c a IH]; [now rewrite append_nil|].
  rewrite append_cons. cbn [lstrip all_space].
  destruct (isspace c); cbn [andb]; [exact IH|now rewrite append_cons].
Qed.

Lemma lstrip_all_space (a : string) : all_space a = true -> lstrip a = "".
Proof.
  induction a as [|c a IH]; [reflexivity|]. cbn [all_space lstrip].
  destruct (isspace c); [exact IH|discriminate].
Qed.

Lemma lstrip_nonspace (c : ascii) (s : string) :
  isspace c = false -> lstrip (String c s) = String c s.
Proof. intros H. cbn [lstrip]. now rewrite H. Qed.

Lemma lstrip_idem (s : string) : lstrip (lstrip s) = lstrip s.
Proof.
  induction s as [|c s IH]; [reflexivity|]. cbn [lstrip].
  destruct (isspace c) eqn:E; [exact IH|]. cbn [lstrip]. now rewrite E.
Qed.

(** What is left of a string once stripped on the left: nothing, or a
    string that starts with a character that is not white space. *)
Lemma lstrip_head (s : string) :
  lstrip s = "" \/ exists c r, lstrip s = String c r /\ isspace c = false.
Proof.
  induction s as [|c s IH]; [now left|]. cbn [lstrip].
  destruct (isspace c) eqn:E; [exact IH|]. right. now exists c, s.
Qed.

Lemma all_space_rev (s : string) : all_space (String.rev s) = all_space s.
Proof.
  assert (Happ : forall a b, all_space (a +:+ b) = all_space a && all_space b).
  { induction a as [|c a IH]; intros b; [now rewrite append_nil|].
    rewrite append_cons. cbn [all_space]. now rewrite IH, andb_assoc. }
  induction s as [|c s IH]; [reflexivity|].
  rewrite string_rev_cons, Happ, IH. cbn [all_space].
  now rewrite andb_true_r, andb_comm.
Qed.

Lemma rstrip_app (a b : string) :
  rstrip (a +:+ b) = if all_space b then rstrip a else a +:+ rstrip b.
Proof.
  unfold rstrip. rewrite string_rev_append, lstrip_app, all_space_rev.
  destruct (all_space b); [reflexivity|].
  now rewrite string_rev_append, string_rev_involutive.
Qed.

Lemma rstrip_last (s : string) (c : ascii) :
  isspace c = false -> rstrip (s +:+ String c "") = s +:+ String c "".
Proof.
  intros H. rewrite rstrip_app. cbn [all_space]. rewrite H. cbn [andb].
  unfold rstrip.
  replace (String.rev (String c "")) with (String c "") by reflexivity.
  now rewrite lstrip_nonspace.
Qed.

(** What is left of a string once stripped on the right: nothing, or a
    string that ends with a character that is not white space. *)
Lemma rstrip_last_char (s : string) :
  rstrip s = "" \/ exists r c, rstrip s = r +:+ String c "" /\ isspace c = false.
Proof.
  unfold rstrip. destruct (lstrip_head (String.rev s)) as [->|(c & r & -> & Hc)].
  - now left.
  - right. exists (String.rev r), c. split; [apply string_rev_cons|exact Hc].
Qed.

Lemma rstrip_idem (s : string) : rstrip (rstrip s) = rstrip s.
Proof. unfold rstrip. now rewrite string_rev_involutive, lstrip_idem. Qed.

Lemma lstrip_rstrip (s : string) : lstrip (rstrip s) = rstrip (lstrip s).
Proof.
  induction s as [|c s IH]; [reflexivity|].
  cbn [lstrip]. destruct (isspace c) eqn:E.
  - rewrite <- IH.
    change (String c s) with (String c "" +:+ s).
    rewrite rstrip_app. destruct (all_space s) eqn:Es.
    + assert (Hs : rstrip s = "").
      { unfold rstrip. rewrite lstrip_all_space by now rewrite all_space_rev.
        reflexivity. }
      rewrite Hs. unfold rstrip. cbn. now rewrite E.
    + rewrite lstrip_app. cbn [all_space]. now rewrite E.
  - change (String c s) with (String c "" +:+ s).
    rewrite rstrip_app. destruct (all_space s) eqn:Es.
    + unfold rstrip at 1. cbn. rewrite E. cbn. now rewrite E.
    + rewrite append_cons, append_nil. now apply lstrip_nonspace.
Qed.

Lemma strip_idem (s : string) : strip (strip s) = strip s.
Proof.
  unfold strip. now rewrite lstrip_rstrip, lstrip_idem, rstrip_idem.
Qed.

Lemma strip_all_space (s : string) : all_space s = true -> strip s = "".
Proof. intros H. unfold strip. now rewrite lstrip_all_space. Qed.

Lemma string_drop_app (a b : string) : drop (String.length a) (a +:+ b) = b.
Proof.
  induction a as [|c a IH]; [now rewrite append_nil; destruct b|].
  rewrite append_cons. exact IH.
Qed.

Lemma string_rev_length (s : string) : String.length (String.rev s) = String.length s.
Proof.
  assert (Happ : forall a b,
             String.length (a +:+ b) = (String.length a + String.length b)%nat).
  { induction a as [|c a IH]; intros b; [now rewrite append_nil|].
    rewrite append_cons. cbn. now rewrite IH. }
  induction s as [|c s IH]; [reflexivity|].
  rewrite string_rev_cons, Happ, IH. cbn. lia.
Qed.

Lemma drop_end_app (a b : string) : drop_end (String.length b) (a +:+ b) = a.
Proof.
  unfold drop_end. rewrite string_rev_append, <- (string_rev_length b), string_drop_app.
  apply string_rev_involutive.
Qed.

End stripping.

Section replies.
Context {codec : JsonCodec} {builtins : Builtins}.
Import pytext agents.

Lemma issue_of_dict_typed (d : list (string * json)) (i : Issue) :
  issue_of_dict d = Some i -> text_fields_are_strings i.
Proof.
  unfold issue_of_dict.
  destruct (cache.Severity_of _) as [s|]; [|discriminate].
  cbn [mbind option_bind].
  destruct (cache.CheckCategory_of _) as [c|]; [|discriminate].
  cbn [mbind option_bind]. intros [= <-]. eexists _, _, _.
  cbn [file message suggestion]. repeat split; reflexivity.
Qed.

Lemma issue_of_dict_to_dict (i : Issue) :
  text_fields_are_strings i ->
  match cache.issue_to_dict i with
  | JDict d => issue_of_dict d = Some i
  | _ => False
  end.
Proof.
  intros (f & m & g & Hf & Hm & Hg). destruct i as [fi li si ci mi gi].
  cbn [file message suggestion] in Hf, Hm, Hg. subst fi mi gi.
  unfold cache.issue_to_dict, issue_of_dict.
  cbn [file line severity category message suggestion dict_get String.eqb
       Ascii.eqb Bool.eqb default from_option id py_str].
  rewrite Severity_of_value. cbn [mbind option_bind].
  rewrite CheckCategory_of_value. reflexivity.
Qed.

Lemma review_items_typed (data : list json) (acc : list Issue) :
  Forall text_fields_are_strings acc ->
  Forall text_fields_are_strings (review_items data acc).
Proof.
  unfold review_items. revert acc.
  induction data as [|item data IH]; intros acc Hacc; cbn [fold_left];
    [exact Hacc|].
  apply IH. destruct item as [| | | | | |d]; try exact Hacc.
  destruct (issue_of_dict d) as [i|] eqn:E; [|exact Hacc].
  apply Forall_app. split; [exact Hacc|].
  apply Forall_singleton. exact (issue_of_dict_typed d i E).
Qed.

Lemma review_items_to_dict (l acc : list Issue) :
  Forall text_fields_are_strings l ->
  review_items (map cache.issue_to_dict l) acc = acc ++ l.
Proof.
  unfold review_items. intros Hl. revert acc.
  induction Hl as [|i l Hi _ IH]; intros acc; cbn [map fold_left];
    [now rewrite app_nil_r|].
  pose proof (issue_of_dict_to_dict i Hi) as Hd.
  unfold cache.issue_to_dict in *. rewrite Hd, IH, <- app_assoc. reflexivity.
Qed.

Lemma parse_cleaned (raw : string) :
  parse_review_response raw
  = if String.eqb (cleaned_response raw) ""
       || String.eqb (cleaned_response raw) "[]"
    then []
    else match json_loads (cleaned_response raw) with
         | Some (JList data) => review_items data []
         | _ => []
         end.
Proof. reflexivity. Qed.

Lemma string_snoc_inj (a b : string) (c d : ascii) :
  a +:+ String c "" = b +:+ String d "" -> c = d.
Proof.
  intros H. apply (f_equal String.rev) in H.
  rewrite !string_rev_append in H.
  replace (String.rev (String c "")) with (String c "") in H by reflexivity.
  replace (String.rev (String d "")) with (String d "") in H by reflexivity.
  rewrite !append_cons, !append_nil in H. now injection H.
Qed.

(** A stripped text that is not fenced goes to the decoder as it is. *)
Lemma cleaned_bare (body : string) :
  pystr.startswith (strip body) fence = false ->
  pystr.endswith (strip body) fence = false ->
  cleaned_response body = strip body.
Proof.
  intros Hs He. unfold cleaned_response, sub_opening_fence. rewrite Hs.
  unfold sub_closing_fence. rewrite He.
  destruct (pystr.endswith (strip body) (fence +:+ String pystr.newline ""))
    eqn:En; [|apply strip_idem].
  exfalso. apply endswith_spec in En as [pre Hpre].
  unfold strip in Hpre.
  destruct (rstrip_last_char (lstrip body)) as [E|(r & c & E & Hc)];
    rewrite E in Hpre.
  - destruct pre; discriminate Hpre.
  - rewrite <- string_app_assoc in Hpre. apply string_snoc_inj in Hpre. subst c.
    discriminate Hc.
Qed.

Lemma cleaned_fenced (body : string) (with_json : bool) :
  cleaned_response
    ((if with_json then "```json" else fence)
     +:+ String pystr.newline (body +:+ String pystr.newline fence))
  = strip body.
Proof.
  set (rest := String pystr.newline (body +:+ String pystr.newline fence)).
  set (raw := (if with_json then "```json" else fence) +:+ rest).
  assert (Hraw : exists tail, raw = String "`" tail
                              /\ raw = (((if with_json then "```json" else fence)
                                         +:+ String pystr.newline body)
                                        +:+ String pystr.newline "``")
                                       +:+ String "`" "").
  { assert (Hl : body +:+ String pystr.newline fence
                 = (body +:+ String pystr.newline "``") +:+ String "`" "").
    { rewrite string_app_assoc. reflexivity. }
    unfold raw, rest. rewrite Hl.
    destruct with_json; eexists; (split; [reflexivity|]);
      rewrite !string_app_assoc; reflexivity. }
  destruct Hraw as (tail & Hhead & Hlast).
  assert (Hstrip : strip raw = raw).
  { unfold strip. rewrite Hhead, lstrip_nonspace by reflexivity.
    rewrite <- Hhead, Hlast. now apply rstrip_last. }
  assert (Hopen : sub_opening_fence raw = lstrip (body +:+ String pystr.newline fence)).
  { unfold raw, rest. destruct with_json; reflexivity. }
  unfold cleaned_response. rewrite Hstrip, Hopen, lstrip_app.
  destruct (all_space body) eqn:Eb.
  - rewrite (strip_all_space _ Eb). reflexivity.
  - unfold sub_closing_fence.
    assert (Hend : pystr.endswith (lstrip body +:+ String pystr.newline fence)
                                  fence = true).
    { apply endswith_spec. exists (lstrip body +:+ String pystr.newline "").
      now rewrite string_app_assoc. }
    rewrite Hend.
    replace (lstrip body +:+ String pystr.newline fence)
      with ((lstrip body +:+ String pystr.newline "") +:+ fence)
      by now rewrite string_app_assoc.
    rewrite (drop_end_app _ fence), rstrip_app.
    cbn [all_space]. replace (isspace pystr.newline) with true by reflexivity.
    cbn [andb]. fold (strip body). apply strip_idem.
Qed.

End replies.

(** X22: whatever the reply, the issues that [parse_review_response]
    returns have strings as their file, message and suggestion. *)
Theorem parsed_issues_have_text_fields {codec : JsonCodec}
    {builtins : Builtins} (raw : string) :
  Forall text_fields_are_strings (agents.parse_review_response raw).
Proof.
  rewrite parse_cleaned.
  destruct (_ || _); [constructor|].
  destruct (json_loads _) as [[| | | | |data|]|]; try constructor.
  apply review_items_typed. constructor.
Qed.

(** X23: a reply wrapped in a Markdown fence, with or without the [json]
    tag, is parsed like the bare reply, provided the bare reply, once
    stripped, neither starts nor ends with a fence itself. *)
Theorem fenced_reply_parses_like_the_bare_reply {codec : JsonCodec}
    {builtins : Builtins} (body : string) (with_json : bool) :
  pystr.startswith (pytext.strip body) agents.fence = false ->
  pystr.endswith (pytext.strip body) agents.fence = false ->
  agents.parse_review_response
    ((if with_json then "```json" else agents.fence)
     +:+ String pystr.newline (body +:+ String pystr.newline agents.fence))
  = agents.parse_review_response body.
Proof.
  intros Hs He.
  now rewrite !parse_cleaned, cleaned_fenced, (cleaned_bare body Hs He).
Qed.

(** X24: the reply format is the format of the cache: a reply whose
    cleaned text decodes to the list that [_serialize_issues] writes for
    issues with strings as text fields is parsed into those issues. *)
Theorem reply_in_cache_format_is_read_back {codec : JsonCodec}
    {builtins : Builtins} (raw : string) (l : list Issue) :
  cleaned_response raw <> "" -> cleaned_response raw <> "[]" ->
  json_loads (cleaned_response raw) = Some (JList (map cache.issue_to_dict l)) ->
  Forall text_fields_are_strings l ->
  agents.parse_review_response raw = l.
Proof.
  intros H1 H2 Hload Hl. rewrite parse_cleaned.
  apply String.eqb_neq in H1, H2. rewrite H1, H2, Hload. cbn [orb].
  exact (review_items_to_dict l [] Hl).
Qed.

Lemma fenced_reply_parses_like_the_bare_reply_witness :
  let i := {| file := JStr "a.py"; line := JInt 3; severity := WARNING;
              category := SECURITY; message := JStr "hard-coded secret";
              suggestion := JStr "" |} in
  let body := json_dumps (JList [cache.issue_to_dict i]) in
  agents.parse_review_response
    ("```json" +:+ String pystr.newline (body +:+ String pystr.newline agents.fence))
  = agents.parse_review_response body
  /\ agents.parse_review_response body = [i].
Proof.
  intros i body. split; [|vm_compute; reflexivity].
  apply (fenced_reply_parses_like_the_bare_reply body true);
    vm_compute; reflexivity.
Defined.

Lemma reply_in_cache_format_is_read_back_witness :
  let i := {| file := JStr "a.py"; line := JNull; severity := CRITICAL;
              category := SECURITY; message := JStr "hard-coded secret";
              suggestion := JStr "read it from the environment" |} in
  agents.parse_review_response (cache._serialize_issues [i]) = [i].
Proof.
  intros i.
  apply (reply_in_cache_format_is_read_back (cache._serialize_issues [i]) [i]).
  - vm_compute. discriminate.
  - vm_compute. discriminate.
  - vm_compute. reflexivity.
  - apply Forall_singleton. eexists _, _, _. repeat split; reflexivity.
Defined.
